(** * SmartSave scrapers: sitemap traversal, CAPTCHA solver manager, crawl loop

    A shallow embedding of
      - [scrapers/utils/sitemap_parser.py]  (module [Sitemap]),
      - [scrapers/utils/captcha_solver.py]  (module [Captcha]),
      - [scrapers/sites/walmart_canada.py]  (module [Crawl]),
    followed by the properties the specification states about them.

    Conventions.  Python [str] is [string]; Python [int] is [Z]; a Python
    [float] that is only stored or compared with a constant is a rational
    [Q]; [Optional[T]] is [option T]; a [set] of strings is [gset string]; a
    [dict] that is iterated is an insertion-ordered association list, a
    [dict] that is only read by key is a [gmap].  Calls that leave the
    process (HTTP, the browser) are answers read from an explicit world. *)

From Stdlib Require Import ZArith QArith String Ascii List Lia.
From stdpp Require Import gmap strings list.

Local Open Scope Z_scope.

(** ** Python primitives *)

Module PyStr.

(** [s.startswith(p)] *)
Fixpoint startswith (p s : string) : bool :=
  match p, s with
  | EmptyString, _ => true
  | String _ _, EmptyString => false
  | String a p', String b s' => if decide (a = b) then startswith p' s' else false
  end.

(** [p in s]: some suffix of [s] starts with [p]. *)
Fixpoint str_in (p s : string) : bool :=
  startswith p s ||
  match s with
  | EmptyString => false
  | String _ s' => str_in p s'
  end.

(** The propositional reading of [p in s]. *)
Definition occurs_in (p s : string) : Prop :=
  ∃ before after : string, s = before +:+ p +:+ after.

(** Truthiness of a string: [bool(s)]. *)
Definition truthy (s : string) : bool :=
  match s with EmptyString => false | String _ _ => true end.

(** [f"{x}"] for an [Optional[str]]. *)
Definition format_optional (x : option string) : string :=
  match x with Some s => s | None => "None" end.

End PyStr.

(** An insertion-ordered [dict] with string keys. *)
Module PyDict.

Definition dict (V : Type) : Type := list (string * V).

(** [d.get(key)] *)
Fixpoint get {V} (d : dict V) (key : string) : option V :=
  match d with
  | [] => None
  | (k, v) :: rest => if decide (k = key) then Some v else get rest key
  end.

Definition keys {V} (d : dict V) : list string := map fst d.

End PyDict.

(** The result of a call that may raise. *)
Inductive outcome (A : Type) : Type :=
| Returned (value : A)
| Raised (message : string).
Arguments Returned {A} value.
Arguments Raised {A} message.

(** ** scrapers/utils/sitemap_parser.py *)

Module Sitemap.
Import PyStr.

(** A [datetime] is either naive (wall-clock microseconds) or aware (an
    instant, microseconds since the epoch in UTC).  [_parse_datetime] makes
    both kinds: the [%z] formats give aware values, [%Y-%m-%d] a naive one. *)
Inductive datetime : Type :=
| Naive (wall : Z)
| Aware (instant : Z).

(** [a < b] on datetimes.  Python orders two naive or two aware values and
    raises [TypeError] for a naive and an aware one; [None] is that
    exception. *)
Definition datetime_lt (a b : datetime) : option bool :=
  match a, b with
  | Naive x, Naive y => Some (x <? y)
  | Aware x, Aware y => Some (x <? y)
  | _, _ => None
  end.

Record SitemapEntry : Type := {
  loc : string;
  lastmod : option datetime;
  changefreq : option string;
  priority : option Q
}.

Definition is_product_page (e : SitemapEntry) : bool :=
  str_in "/ip/" (loc e) || str_in "/produit/" (loc e).

(** What fetching and parsing one sitemap URL gives [parse_sitemap]:
    either [_fetch_sitemap_content] or [_parse_sitemap_xml] raised, or the
    pair [(sitemap_urls, url_entries)] came back (both empty for XML that
    does not parse). *)
Inductive document : Type :=
| FetchFailed
| Parsed (nested_sitemaps : list string) (entries : list SitemapEntry).

(** The sitemap files behind the URLs. *)
Definition Web : Type := string → document.

(** What an observer of the generator sees: a sitemap fetched, an entry
    yielded. *)
Inductive event : Type :=
| Fetch (url : string)
| Yield (entry : SitemapEntry).

Definition fetched (trace : list event) : list string :=
  omap (λ ev, match ev with Fetch u => Some u | Yield _ => None end) trace.

Definition yielded (trace : list event) : list SitemapEntry :=
  omap (λ ev, match ev with Yield e => Some e | Fetch _ => None end) trace.

(** How the [for entry in entries] loop is left. *)
Inductive loop_exit : Type :=
| Exhausted        (* all entries seen *)
| LimitReached     (* [return]: [max_urls] entries were yielded *)
| Escaped.         (* an exception left the loop for the enclosing handler *)

(** [since and entry.lastmod and entry.lastmod < since]; [None] when the
    comparison raises. *)
Definition older_than_since (since : option datetime) (entry : SitemapEntry)
  : option bool :=
  match since, lastmod entry with
  | Some s, Some lm => datetime_lt lm s
  | _, _ => Some false
  end.

(** [url_filter and not url_filter(entry.loc)] *)
Definition rejected_by_filter (url_filter : option (string → bool))
    (entry : SitemapEntry) : bool :=
  match url_filter with
  | Some f => negb (f (loc entry))
  | None => false
  end.

(** [max_urls and urls_yielded >= max_urls] *)
Definition limit_reached (max_urls : option Z) (urls_yielded : Z) : bool :=
  match max_urls with
  | Some m => negb (m =? 0) && (m <=? urls_yielded)
  | None => false
  end.

(** The [for entry in entries] loop of [parse_sitemap]: the entries it
    yields, the counter afterwards and how it was left. *)
Fixpoint yield_entries (since : option datetime)
    (url_filter : option (string → bool)) (max_urls : option Z)
    (entries : list SitemapEntry) (urls_yielded : Z)
  : list SitemapEntry * Z * loop_exit :=
  match entries with
  | [] => ([], urls_yielded, Exhausted)
  | entry :: rest =>
      match older_than_since since entry with
      | None => ([], urls_yielded, Escaped)
      | Some true => yield_entries since url_filter max_urls rest urls_yielded
      | Some false =>
          if rejected_by_filter url_filter entry
          then yield_entries since url_filter max_urls rest urls_yielded
          else
            let urls_yielded := urls_yielded + 1 in
            if limit_reached max_urls urls_yielded
            then ([entry], urls_yielded, LimitReached)
            else
              let '(more, n, how) :=
                yield_entries since url_filter max_urls rest urls_yielded in
              (entry :: more, n, how)
      end
  end.

(** The [while sitemap_queue] loop.  [fuel] bounds the number of
    iterations; [None] means the bound was too small. *)
Fixpoint parse_loop (fuel : nat) (web : Web) (recursive : bool)
    (since : option datetime) (url_filter : option (string → bool))
    (max_urls : option Z)
    (sitemap_queue : list string) (visited_sitemaps : gset string)
    (urls_yielded : Z) : option (list event) :=
  match sitemap_queue with
  | [] => Some []
  | current_url :: sitemap_queue =>
      match fuel with
      | O => None
      | S fuel =>
          if decide (current_url ∈ visited_sitemaps)
          then parse_loop fuel web recursive since url_filter max_urls
                 sitemap_queue visited_sitemaps urls_yielded
          else
            let visited_sitemaps := visited_sitemaps ∪ {[current_url]} in
            match web current_url with
            | FetchFailed =>
                cons (Fetch current_url) <$>
                  parse_loop fuel web recursive since url_filter max_urls
                    sitemap_queue visited_sitemaps urls_yielded
            | Parsed nested_sitemaps entries =>
                (* [if recursive and nested_sitemaps: extend]; extending by
                   an empty list changes nothing *)
                let sitemap_queue :=
                  if recursive then sitemap_queue ++ nested_sitemaps
                  else sitemap_queue in
                let '(out, n, how) :=
                  yield_entries since url_filter max_urls entries urls_yielded in
                match how with
                | LimitReached => Some (Fetch current_url :: map Yield out)
                | Exhausted | Escaped =>
                    (λ later, Fetch current_url :: map Yield out ++ later) <$>
                      parse_loop fuel web recursive since url_filter max_urls
                        sitemap_queue visited_sitemaps n
                end
            end
      end
  end.

(** [parse_sitemap], observed as the events of the generator driven to its
    end. *)
Definition parse_sitemap (fuel : nat) (web : Web) (url : string)
    (recursive : bool) (since : option datetime)
    (url_filter : option (string → bool)) (max_urls : option Z)
  : option (list event) :=
  parse_loop fuel web recursive since url_filter max_urls [url] ∅ 0.

(** The [lambda] of [get_product_urls]. *)
Definition product_url_filter (url : string) : bool :=
  str_in "/ip/" url || str_in "/produit/" url.

(** The traversal [get_product_urls] drives, with its fetches. *)
Definition get_product_urls_events (fuel : nat) (web : Web)
    (sitemap_url : string) (max_urls : option Z) (since : option datetime)
  : option (list event) :=
  parse_sitemap fuel web sitemap_url true since (Some product_url_filter) max_urls.

(** [get_product_urls]: the realised list. *)
Definition get_product_urls (fuel : nat) (web : Web) (sitemap_url : string)
    (max_urls : option Z) (since : option datetime)
  : option (list SitemapEntry) :=
  yielded <$> get_product_urls_events fuel web sitemap_url max_urls since.

(** [filter_walmart_product_urls]: the patterns excluded after robots.txt. *)
Definition disallowed_patterns : list string :=
  [ "/search"; "/recherche"; "/cart"; "/panier"; "/sign-in"; "/account";
    "/kiosk/"; "+"; "?f=" ].

(** The [for pattern in disallowed_patterns] loop with its early
    [return False]. *)
Fixpoint no_pattern_in (patterns : list string) (url : string) : bool :=
  match patterns with
  | [] => true
  | pattern :: rest => if str_in pattern url then false else no_pattern_in rest url
  end.

Definition filter_walmart_product_urls (url : string) : bool :=
  if negb (str_in "/ip/" url) && negb (str_in "/produit/" url) then false
  else no_pattern_in disallowed_patterns url.

(** The [since] test on an entry whose comparison with [since] does not
    raise: the entry is kept unless its [lastmod] is set and older. *)
Definition kept_by_since (since : datetime) (entry : SitemapEntry) : bool :=
  match lastmod entry with
  | Some lm =>
      match datetime_lt lm since with
      | Some true => false
      | _ => true
      end
  | None => true
  end.

(** [entry.lastmod < since] can be evaluated: the entry is undated or of
    the same kind (naive or aware) as [since]. *)
Definition comparable (since : datetime) (entry : SitemapEntry) : Prop :=
  match lastmod entry with
  | Some lm => is_Some (datetime_lt lm since)
  | None => True
  end.

(** The sitemaps a traversal can reach all lie in [universe]. *)
Definition closed_under_nesting (web : Web) (universe : list string) : Prop :=
  ∀ u nested entries, u ∈ universe → web u = Parsed nested entries →
    ∀ v, v ∈ nested → v ∈ universe.

Definition nested_of (web : Web) (u : string) : list string :=
  match web u with
  | Parsed nested _ => nested
  | FetchFailed => []
  end.

(** Loop iterations still owed to the sitemaps not yet fetched: one for the
    fetch and one per reference it will append to the queue. *)
Definition pending_weight (web : Web) (universe : list string)
    (visited : gset string) : nat :=
  sum_list (map (λ u, if decide (u ∈ visited) then O
                      else S (length (nested_of web u))) universe).

(** A number of iterations that suffices for a traversal inside [universe]. *)
Definition enough_fuel (web : Web) (universe : list string) : nat :=
  S (pending_weight web universe ∅).

End Sitemap.

(** ** scrapers/utils/captcha_solver.py *)

Module Captcha.
Import PyStr.

Record CaptchaSolution : Type := {
  success : bool;
  token : option string;
  solution : option (list (string * string));
  error : option string;
  task_id : option string;
  cost : option Q;
  solve_time : option Q
}.

(** [CaptchaSolution(success=False, error=message)] *)
Definition failure (message : string) : CaptchaSolution :=
  {| success := false; token := None; solution := None;
     error := Some message; task_id := None; cost := None;
     solve_time := None |}.

(** The answer to a balance request, as far as [get_balance] reads it.
    [code] is the field that marks success ([status] for 2Captcha, [errorId]
    for CapSolver, [None] when absent or not a number) and [amount] what
    [float(...)] makes of the balance field ([request] resp. [balance],
    [0] when absent; [None] when [float] raises).  [TransportError] is an
    exception from the HTTP call or from decoding the body. *)
Inductive balance_reply : Type :=
| TransportError
| Json (code : option Z) (amount : option Q).

Section WithWorld.

(** The state of everything outside the process that a call can read or
    change: the solving services and the network. *)
Context {World : Type}.

(** [CaptchaSolverBase]: what the manager uses of a provider. *)
Record Solver : Type := {
  solver_solve_perimeterx :
    string → option string → option string → World →
    outcome CaptchaSolution * World;
  solver_get_balance : World → outcome Q * World
}.

(** [TwoCaptchaSolver.get_balance]: a reply with [status == 1] gives the
    amount; an exception raised inside the [try] is logged and, like every
    other reply, ends in [return 0.0]. *)
Definition TwoCaptchaSolver_get_balance
    (request : World → balance_reply * World) (w : World)
  : outcome Q * World :=
  let '(reply, w) := request w in
  match reply with
  | Json (Some 1) (Some amount) => (Returned amount, w)
  | _ => (Returned 0%Q, w)
  end.

(** [CapSolver.get_balance]: the same with [errorId == 0]. *)
Definition CapSolver_get_balance
    (request : World → balance_reply * World) (w : World)
  : outcome Q * World :=
  let '(reply, w) := request w in
  match reply with
  | Json (Some 0) (Some amount) => (Returned amount, w)
  | _ => (Returned 0%Q, w)
  end.

(** The built-in providers over their HTTP endpoints: [solve] stands for
    the create-and-poll exchange, [balance_request] for the balance
    endpoint. *)
Definition TwoCaptchaSolver
    (solve : string → option string → option string → World →
             outcome CaptchaSolution * World)
    (balance_request : World → balance_reply * World) : Solver :=
  {| solver_solve_perimeterx := solve;
     solver_get_balance := TwoCaptchaSolver_get_balance balance_request |}.

Definition CapSolver
    (solve : string → option string → option string → World →
             outcome CaptchaSolution * World)
    (balance_request : World → balance_reply * World) : Solver :=
  {| solver_solve_perimeterx := solve;
     solver_get_balance := CapSolver_get_balance balance_request |}.

Record CaptchaSolverManager : Type := {
  enabled : bool;
  primary_provider : string;
  fallback_provider : option string;
  timeout : Z;
  max_retries : Z;
  solvers : PyDict.dict Solver
}.

(** [self.enabled and len(self.solvers) > 0] *)
Definition is_available (m : CaptchaSolverManager) : bool :=
  enabled m && (0 <? Z.of_nat (length (solvers m))).

(** One call of a provider's [solve_perimeterx], as the manager logs it. *)
Definition attempt : Type := string * outcome CaptchaSolution.

(** An attempt that does not end the search. *)
Definition failed (o : outcome CaptchaSolution) : Prop :=
  match o with
  | Returned result => success result = false
  | Raised _ => True
  end.

(** What a failed attempt leaves in [last_error]: [result.error], or
    [str(e)]. *)
Definition error_of (o : outcome CaptchaSolution) : option string :=
  match o with
  | Returned result => error result
  | Raised message => Some message
  end.

(** [for attempt in range(self.max_retries)]: either the successful result
    that was returned, or [last_error] after the last attempt; with the
    world afterwards and the attempts made. *)
Fixpoint retry (solver : Solver) (provider_name : string)
    (site_url : string) (data_blob user_agent : option string)
    (attempts : nat) (last_error : option string) (w : World)
  : (CaptchaSolution + option string) * World * list attempt :=
  match attempts with
  | O => (inr last_error, w, [])
  | S attempts =>
      let '(o, w) :=
        solver_solve_perimeterx solver site_url data_blob user_agent w in
      match o with
      | Returned result =>
          if success result
          then (inl result, w, [(provider_name, o)])
          else
            let '(r, w, log) :=
              retry solver provider_name site_url data_blob user_agent
                attempts (error result) w in
            (r, w, (provider_name, o) :: log)
      | Raised message =>
          let '(r, w, log) :=
            retry solver provider_name site_url data_blob user_agent
              attempts (Some message) w in
          (r, w, (provider_name, o) :: log)
      end
  end.

(** [for provider_name in providers_to_try] *)
Fixpoint try_providers (m : CaptchaSolverManager)
    (providers_to_try : list string)
    (site_url : string) (data_blob user_agent : option string)
    (last_error : option string) (w : World)
  : (CaptchaSolution + option string) * World * list attempt :=
  match providers_to_try with
  | [] => (inr last_error, w, [])
  | provider_name :: rest =>
      match PyDict.get (solvers m) provider_name with
      | None => try_providers m rest site_url data_blob user_agent last_error w
      | Some solver =>
          let '(r, w, log) :=
            retry solver provider_name site_url data_blob user_agent
              (Z.to_nat (max_retries m)) last_error w in
          match r with
          | inl result => (inl result, w, log)
          | inr last_error =>
              let '(r, w, log') :=
                try_providers m rest site_url data_blob user_agent
                  last_error w in
              (r, w, log ++ log')
          end
      end
  end.

(** [[primary]], followed by the fallback when it is set, not empty and not
    the primary. *)
Definition providers_to_try (m : CaptchaSolverManager) : list string :=
  primary_provider m ::
  match fallback_provider m with
  | Some fallback =>
      if truthy fallback && negb (bool_decide (fallback = primary_provider m))
      then [fallback] else []
  | None => []
  end.

(** [CaptchaSolverManager.solve_perimeterx]: the solution returned, the
    world afterwards and the attempts made, in order. *)
Definition solve_perimeterx (m : CaptchaSolverManager)
    (site_url : string) (data_blob user_agent : option string) (w : World)
  : CaptchaSolution * World * list attempt :=
  if negb (is_available m)
  then (failure "CAPTCHA solving is not configured or enabled", w, [])
  else
    let '(r, w, log) :=
      try_providers m (providers_to_try m) site_url data_blob user_agent
        None w in
    match r with
    | inl result => (result, w, log)
    | inr last_error =>
        (failure ("All CAPTCHA solvers failed. Last error: "
                  +:+ format_optional last_error), w, log)
    end.

(** [for name, solver in self.solvers.items()] of [get_balances], started
    from the mapping [balances]. *)
Fixpoint collect_balances (items : PyDict.dict Solver)
    (balances : gmap string Q) (w : World) : gmap string Q * World :=
  match items with
  | [] => (balances, w)
  | (name, solver) :: rest =>
      let '(o, w) := solver_get_balance solver w in
      match o with
      | Returned amount => collect_balances rest (<[name := amount]> balances) w
      | Raised _ => collect_balances rest (<[name := (-1)%Q]> balances) w
      end
  end.

Definition get_balances (m : CaptchaSolverManager) (w : World)
  : gmap string Q * World :=
  collect_balances (solvers m) ∅ w.

(** The world in which the provider after [items] is asked for its
    balance. *)
Definition world_after_balances (items : PyDict.dict Solver) (w : World)
  : World :=
  fold_left (λ w item, snd (solver_get_balance (snd item) w)) items w.

(** The calls the manager makes over [providers] when none succeeds: each
    provider it holds a solver for, [max_retries] times, in order. *)
Definition schedule_of (m : CaptchaSolverManager) (providers : list string)
  : list string :=
  flat_map
    (λ name, match PyDict.get (solvers m) name with
             | Some _ => replicate (Z.to_nat (max_retries m)) name
             | None => []
             end)
    providers.

Definition schedule (m : CaptchaSolverManager) : list string :=
  schedule_of m (providers_to_try m).

(** The error of the last attempt in [log]; [initial] when there is none. *)
Definition last_error_from (initial : option string) (log : list attempt)
  : option string :=
  match last log with
  | Some (_, o) => error_of o
  | None => initial
  end.

(** Every attempt in [log] failed. *)
Definition all_failed (log : list attempt) : Prop :=
  Forall (λ a : attempt, failed (snd a)) log.

(** [n] calls of one solver in a row, whatever they return. *)
Fixpoint replay (solver : Solver) (site_url : string)
    (data_blob user_agent : option string) (n : nat) (w : World)
  : list (outcome CaptchaSolution) * World :=
  match n with
  | O => ([], w)
  | S n =>
      let '(o, w) :=
        solver_solve_perimeterx solver site_url data_blob user_agent w in
      let '(os, w) := replay solver site_url data_blob user_agent n w in
      (o :: os, w)
  end.

End WithWorld.

Arguments Solver World : clear implicits.
Arguments CaptchaSolverManager World : clear implicits.

End Captcha.

(** ** scrapers/sites/walmart_canada.py *)

Module Crawl.
Import PyStr.

Definition CAPTCHA_INDICATORS : list string :=
  [ "press & hold"; "press and hold"; "px-captcha"; "perimeterx";
    "distil_r_captcha"; "_incapsula_resource"; "blocked"; "access denied" ].

(** The exceptions [scrape_product_page] tells apart. *)
Inductive exn : Type :=
| PlaywrightTimeout
| OtherException.

(** How [page.goto] ends. *)
Inductive navigation : Type :=
| Loaded
| TimedOut
| Crashed.

Section WithCollaborators.

(** [World] is the state of the solving services, [ProductRecord] the
    record type of [scrapers.base], [lower] Python's [str.lower]. *)
Context {World ProductRecord : Type}.
Variable lower : string → string.

(** What the browser and the content parsers answer during one visit. *)
Record PageVisit : Type := {
  goto_result : navigation;
  content : option string;              (* [page.content()]; [None]: it raises *)
  page_url : string;                    (* [page.url] *)
  px_data : option string;              (* [_extract_px_data()] *)
  injection_raises : bool;              (* [add_cookies], [evaluate] or [reload] raises *)
  content_after_reload : option string; (* [page.content()] after [page.reload] *)
  next_data_product : option ProductRecord;
                                        (* [_extract_next_data] then
                                           [_parse_product_from_next_data] *)
  dom_product : option ProductRecord    (* [_extract_from_dom] *)
}.

(** The configuration entries the visit reads. *)
Record Config : Type := {
  base_url : string;
  warmup_enabled : bool;
  warmup_pages : list string;
  user_agent : string;
  fallback_to_dom : bool
}.

(** The scraper object, with the two things it acts on outside itself: the
    world of the solving services and the list of page loads asked of the
    browser. *)
Record Session : Type := {
  config : Config;
  captcha_solver : Captcha.CaptchaSolverManager World;
  max_consecutive_errors : Z;
  page : bool;                          (* [self.page] is set *)
  session_warmed_up : bool;
  consecutive_errors : Z;
  captcha_solve_attempts : Z;
  captcha_solve_successes : Z;
  stats_errors : Z;                     (* [self.stats['errors']] *)
  solver_world : World;
  navigations : list string             (* every [page.goto(url)], oldest first *)
}.

(** [WalmartCanadaScraper.__init__] *)
Definition init (cfg : Config) (m : Captcha.CaptchaSolverManager World)
    (w : World) : Session :=
  {| config := cfg; captcha_solver := m; max_consecutive_errors := 5;
     page := false; session_warmed_up := false; consecutive_errors := 0;
     captcha_solve_attempts := 0; captcha_solve_successes := 0;
     stats_errors := 0; solver_world := w; navigations := [] |}.

Definition set_page (v : bool) (s : Session) : Session :=
  {| config := config s; captcha_solver := captcha_solver s;
     max_consecutive_errors := max_consecutive_errors s;
     page := v; session_warmed_up := session_warmed_up s;
     consecutive_errors := consecutive_errors s;
     captcha_solve_attempts := captcha_solve_attempts s;
     captcha_solve_successes := captcha_solve_successes s;
     stats_errors := stats_errors s; solver_world := solver_world s;
     navigations := navigations s |}.

Definition set_session_warmed_up (v : bool) (s : Session) : Session :=
  {| config := config s; captcha_solver := captcha_solver s;
     max_consecutive_errors := max_consecutive_errors s;
     page := page s; session_warmed_up := v;
     consecutive_errors := consecutive_errors s;
     captcha_solve_attempts := captcha_solve_attempts s;
     captcha_solve_successes := captcha_solve_successes s;
     stats_errors := stats_errors s; solver_world := solver_world s;
     navigations := navigations s |}.

Definition set_consecutive_errors (v : Z) (s : Session) : Session :=
  {| config := config s; captcha_solver := captcha_solver s;
     max_consecutive_errors := max_consecutive_errors s;
     page := page s; session_warmed_up := session_warmed_up s;
     consecutive_errors := v;
     captcha_solve_attempts := captcha_solve_attempts s;
     captcha_solve_successes := captcha_solve_successes s;
     stats_errors := stats_errors s; solver_world := solver_world s;
     navigations := navigations s |}.

Definition set_captcha_solve_attempts (v : Z) (s : Session) : Session :=
  {| config := config s; captcha_solver := captcha_solver s;
     max_consecutive_errors := max_consecutive_errors s;
     page := page s; session_warmed_up := session_warmed_up s;
     consecutive_errors := consecutive_errors s;
     captcha_solve_attempts := v;
     captcha_solve_successes := captcha_solve_successes s;
     stats_errors := stats_errors s; solver_world := solver_world s;
     navigations := navigations s |}.

Definition set_captcha_solve_successes (v : Z) (s : Session) : Session :=
  {| config := config s; captcha_solver := captcha_solver s;
     max_consecutive_errors := max_consecutive_errors s;
     page := page s; session_warmed_up := session_warmed_up s;
     consecutive_errors := consecutive_errors s;
     captcha_solve_attempts := captcha_solve_attempts s;
     captcha_solve_successes := v;
     stats_errors := stats_errors s; solver_world := solver_world s;
     navigations := navigations s |}.

Definition set_stats_errors (v : Z) (s : Session) : Session :=
  {| config := config s; captcha_solver := captcha_solver s;
     max_consecutive_errors := max_consecutive_errors s;
     page := page s; session_warmed_up := session_warmed_up s;
     consecutive_errors := consecutive_errors s;
     captcha_solve_attempts := captcha_solve_attempts s;
     captcha_solve_successes := captcha_solve_successes s;
     stats_errors := v; solver_world := solver_world s;
     navigations := navigations s |}.

Definition set_solver_world (v : World) (s : Session) : Session :=
  {| config := config s; captcha_solver := captcha_solver s;
     max_consecutive_errors := max_consecutive_errors s;
     page := page s; session_warmed_up := session_warmed_up s;
     consecutive_errors := consecutive_errors s;
     captcha_solve_attempts := captcha_solve_attempts s;
     captcha_solve_successes := captcha_solve_successes s;
     stats_errors := stats_errors s; solver_world := v;
     navigations := navigations s |}.

Definition set_navigations (v : list string) (s : Session) : Session :=
  {| config := config s; captcha_solver := captcha_solver s;
     max_consecutive_errors := max_consecutive_errors s;
     page := page s; session_warmed_up := session_warmed_up s;
     consecutive_errors := consecutive_errors s;
     captcha_solve_attempts := captcha_solve_attempts s;
     captcha_solve_successes := captcha_solve_successes s;
     stats_errors := stats_errors s; solver_world := solver_world s;
     navigations := v |}.

(** *** A state monad with exceptions for the method bodies

    A mutation made before an exception is raised stays made, as in
    Python. *)
Definition M (A : Type) : Type := Session → (A + exn) * Session.

Definition ret {A} (a : A) : M A := λ s, (inl a, s).

Definition bind {A B} (c : M A) (k : A → M B) : M B :=
  λ s, match c s with
       | (inl a, s') => k a s'
       | (inr e, s') => (inr e, s')
       end.

Definition raise {A} (e : exn) : M A := λ s, (inr e, s).

Definition get : M Session := λ s, (inl s, s).

Definition modify (f : Session → Session) : M unit := λ s, (inl tt, f s).

(** [try: body  except Exception: handler] *)
Definition try_except {A} (body : M A) (handler : exn → M A) : M A :=
  λ s, match body s with
       | (inl a, s') => (inl a, s')
       | (inr e, s') => handler e s'
       end.

Notation "'let!' x ':=' c 'in' k" := (bind c (λ x, k))
  (at level 10, x name, c at level 100, k at level 200, only parsing).
Notation "'run!' c 'in' k" := (bind c (λ _, k))
  (at level 10, c at level 100, k at level 200, only parsing).

(** [self.page.goto(url, ...)] *)
Definition goto (url : string) (result : navigation) : M unit :=
  run! modify (λ s, set_navigations (navigations s ++ [url]) s) in
  match result with
  | Loaded => ret tt
  | TimedOut => raise PlaywrightTimeout
  | Crashed => raise OtherException
  end.

(** The scan of [_is_blocked]: some indicator occurs in
    [page.content().lower()]; an exception from [page.content()] gives
    [False]. *)
Definition has_indicator (page_content : option string) : bool :=
  match page_content with
  | Some text =>
      existsb (λ indicator, str_in indicator (lower text)) CAPTCHA_INDICATORS
  | None => false
  end.

(** [_is_blocked], on what [page.content()] gives at the time. *)
Definition _is_blocked (page_content : option string) : M bool :=
  let! s := get in
  if negb (page s) then ret false
  else ret (has_indicator page_content).

(** [start_browser]; launching the browser is taken to succeed. *)
Definition start_browser : M unit := modify (set_page true).

(** [warmup_session]: each warm-up page is loaded once; a block or an
    exception on one of them is logged and the loop goes on. *)
Definition warmup_session : M unit :=
  let! s := get in
  if session_warmed_up s then ret tt
  else if negb (warmup_enabled (config s))
  then modify (set_session_warmed_up true)
  else
    let urls :=
      map (λ path, if startswith "/" path then base_url (config s) +:+ path
                   else path)
          (warmup_pages (config s)) in
    run! modify (λ s, set_navigations (navigations s ++ urls) s) in
    modify (set_session_warmed_up true).

(** The [try] block of [_handle_captcha] that injects the token and
    reloads; any exception in it gives [False]. *)
Definition inject_and_recheck (pv : PageVisit) : M bool :=
  try_except
    (if injection_raises pv then raise OtherException
     else
       let! blocked := _is_blocked (content_after_reload pv) in
       ret (negb blocked))
    (λ _, ret false).

(** [_handle_captcha] *)
Definition _handle_captcha (pv : PageVisit) : M bool :=
  let! s := get in
  if negb (Captcha.is_available (captcha_solver s)) then ret false
  else
    run! modify (λ s, set_captcha_solve_attempts
                        (captcha_solve_attempts s + 1) s) in
    let! s := get in
    let '(result, w, _) :=
      Captcha.solve_perimeterx (captcha_solver s) (page_url pv) (px_data pv)
        (Some (user_agent (config s))) (solver_world s) in
    run! modify (set_solver_world w) in
    if negb (Captcha.success result) then ret false
    else
      (* [f"{result.solve_time:.1f}"] raises [TypeError] on [None] *)
      match Captcha.solve_time result with
      | None => raise OtherException
      | Some _ =>
          run! modify (λ s, set_captcha_solve_successes
                              (captcha_solve_successes s + 1) s) in
          match Captcha.token result with
          | Some tok => if truthy tok then inject_and_recheck pv else ret false
          | None => ret false
          end
      end.

(** [_handle_block] *)
Definition _handle_block (pv : PageVisit) : M bool :=
  let! s := get in
  let! solved := (if Captcha.is_available (captcha_solver s)
                  then _handle_captcha pv else ret false) in
  if solved then ret true
  else (* [_human_delay(10, 20)] *) ret false.

(** The [if self._is_blocked():] statement of [scrape_product_page]: [true]
    when the visit ends there with [return None]. *)
Definition check_for_blocks (pv : PageVisit) : M bool :=
  let! blocked := _is_blocked (content pv) in
  if blocked
  then
    let! bypassed := _handle_block pv in
    if bypassed then ret false
    else
      run! modify (λ s, set_consecutive_errors (consecutive_errors s + 1) s) in
      run! modify (λ s, set_stats_errors (stats_errors s + 1) s) in
      (* [if self.consecutive_errors >= self.max_consecutive_errors:] logs
         and returns [None], as does the line after it *)
      ret true
  else ret false.

(** The [try] body of [scrape_product_page].  [adaptive_wait] and
    [_human_delay] only sleep and are left out. *)
Definition scrape_product_page_body (product_url : string) (pv : PageVisit)
  : M (option ProductRecord) :=
  run! goto product_url (goto_result pv) in
  let! stop := check_for_blocks pv in
  if stop then ret None
  else
    run! modify (set_consecutive_errors 0) in
    match next_data_product pv with
    | Some product => ret (Some product)
    | None =>
        let! s := get in
        if fallback_to_dom (config s) then ret (dom_product pv)
        else ret None
    end.

(** Both [except] clauses of [scrape_product_page]. *)
Definition scrape_product_page_handler (e : exn) : M (option ProductRecord) :=
  run! modify (λ s, set_consecutive_errors (consecutive_errors s + 1) s) in
  run! modify (λ s, set_stats_errors (stats_errors s + 1) s) in
  ret None.

(** [if not self.page: self.start_browser(); self.warmup_session()] *)
Definition ensure_browser : M unit :=
  let! s := get in
  if negb (page s)
  then run! start_browser in warmup_session
  else ret tt.

(** [scrape_product_page]: the record or [None], and the session after. *)
Definition scrape_product_page (product_url : string) (pv : PageVisit)
    (s : Session) : option ProductRecord * Session :=
  let visit : M (option ProductRecord) :=
    run! ensure_browser in
    try_except (scrape_product_page_body product_url pv)
               scrape_product_page_handler in
  match visit s with
  | (inl r, s') => (r, s')
  | (inr _, s') => (None, s')
  end.

(** A run of visits, one after the other on the same session. *)
Fixpoint scrape_all (visits : list (string * PageVisit)) (s : Session)
  : list (option ProductRecord) * Session :=
  match visits with
  | [] => ([], s)
  | (url, pv) :: rest =>
      let '(r, s) := scrape_product_page url pv s in
      let '(rs, s) := scrape_all rest s in
      (r :: rs, s)
  end.

End WithCollaborators.

Arguments PageVisit ProductRecord : clear implicits.
Arguments Session World : clear implicits.

End Crawl.

(** ** Concrete sites, managers and sessions used below *)

Module Scenarios.
Import PyStr.

(** [str.lower] on ASCII letters. *)
Definition ascii_lower_char (c : ascii) : ascii :=
  let n := nat_of_ascii c in
  if (Nat.leb 65 n && Nat.leb n 90)%bool then ascii_of_nat (n + 32) else c.

Fixpoint ascii_lower (s : string) : string :=
  match s with
  | EmptyString => EmptyString
  | String c rest => String (ascii_lower_char c) (ascii_lower rest)
  end.

Definition entry (url : string) (modified : option Sitemap.datetime)
  : Sitemap.SitemapEntry :=
  {| Sitemap.loc := url; Sitemap.lastmod := modified;
     Sitemap.changefreq := None; Sitemap.priority := None |}.

(** An index over two url-sets, five entries, four of them item pages. *)
Definition shop_web : Sitemap.Web := λ url,
  if decide (url = "https://shop.example/sitemap.xml")
  then Sitemap.Parsed
         ["https://shop.example/a.xml"; "https://shop.example/b.xml"] []
  else if decide (url = "https://shop.example/a.xml")
  then Sitemap.Parsed []
         [ entry "https://shop.example/en/ip/widget/1" None;
           entry "https://shop.example/en/help" None;
           entry "https://shop.example/en/ip/gadget/2" None ]
  else if decide (url = "https://shop.example/b.xml")
  then Sitemap.Parsed []
         [ entry "https://shop.example/fr/produit/truc/3" None;
           entry "https://shop.example/en/ip/gizmo/4" None ]
  else Sitemap.FetchFailed.

(** Two sitemap indexes that reference each other. *)
Definition cyclic_web : Sitemap.Web := λ url,
  if decide (url = "https://loop.example/A.xml")
  then Sitemap.Parsed ["https://loop.example/B.xml"]
         [ entry "https://loop.example/en/ip/a/1" None ]
  else if decide (url = "https://loop.example/B.xml")
  then Sitemap.Parsed ["https://loop.example/A.xml"]
         [ entry "https://loop.example/en/ip/b/2" None ]
  else Sitemap.FetchFailed.

(** One url-set whose first entry carries a time-zone ([lastmod] with an
    offset, parsed as an aware datetime) and whose second entry has no
    [lastmod]. *)
Definition dated_web : Sitemap.Web := λ url,
  if decide (url = "https://dated.example/sitemap.xml")
  then Sitemap.Parsed []
         [ entry "https://dated.example/en/ip/new/1" (Some (Sitemap.Aware 200));
           entry "https://dated.example/en/ip/undated/2" None ]
  else Sitemap.FetchFailed.

(** Solving services for the manager.  The world counts the calls made. *)
Definition solved (tok : string) : Captcha.CaptchaSolution :=
  {| Captcha.success := true; Captcha.token := Some tok;
     Captcha.solution := None; Captcha.error := None;
     Captcha.task_id := Some "task-1"; Captcha.cost := None;
     Captcha.solve_time := Some 12%Q |}.

Definition always_failing (site_url : string) (data_blob user_agent : option string)
    (calls : nat) : outcome Captcha.CaptchaSolution * nat :=
  (Returned (Captcha.failure "ERROR_CAPTCHA_UNSOLVABLE"), S calls).

Definition always_solving (site_url : string) (data_blob user_agent : option string)
    (calls : nat) : outcome Captcha.CaptchaSolution * nat :=
  (Returned (solved "px-token"), S calls).

(** A balance endpoint that cannot be reached, and one that answers
    12.5. *)
Definition unreachable (calls : nat) : Captcha.balance_reply * nat :=
  (Captcha.TransportError, calls).

Definition balance_12_5 (calls : nat) : Captcha.balance_reply * nat :=
  (Captcha.Json (Some 0) (Some (25 # 2)%Q), calls).

(** CapSolver first and never solving, 2Captcha as fallback and solving at
    once; the balance endpoint of 2Captcha is unreachable. *)
Definition fallback_manager : Captcha.CaptchaSolverManager nat :=
  {| Captcha.enabled := true;
     Captcha.primary_provider := "capsolver";
     Captcha.fallback_provider := Some "2captcha";
     Captcha.timeout := 120;
     Captcha.max_retries := 2;
     Captcha.solvers :=
       [ ("capsolver", Captcha.CapSolver always_failing balance_12_5);
         ("2captcha", Captcha.TwoCaptchaSolver always_solving unreachable) ] |}.

(** An enabled manager whose only solver is named by neither the primary
    nor the fallback entry. *)
Definition unmatched_manager : Captcha.CaptchaSolverManager nat :=
  {| Captcha.enabled := true;
     Captcha.primary_provider := "capsolver";
     Captcha.fallback_provider := Some "anticaptcha";
     Captcha.timeout := 120;
     Captcha.max_retries := 2;
     Captcha.solvers :=
       [ ("2captcha", Captcha.TwoCaptchaSolver always_solving unreachable) ] |}.

(** No [captcha_solver] section in the configuration. *)
Definition unconfigured_manager : Captcha.CaptchaSolverManager nat :=
  {| Captcha.enabled := false;
     Captcha.primary_provider := "capsolver";
     Captcha.fallback_provider := None;
     Captcha.timeout := 120;
     Captcha.max_retries := 2;
     Captcha.solvers := [] |}.

(** A crawl session without a configured solver. *)
Definition store_config : Crawl.Config :=
  {| Crawl.base_url := "https://www.walmart.ca";
     Crawl.warmup_enabled := true;
     Crawl.warmup_pages := ["/"];
     Crawl.user_agent := "Mozilla/5.0";
     Crawl.fallback_to_dom := false |}.

Definition fresh_session : Crawl.Session nat :=
  Crawl.init store_config unconfigured_manager 0%nat.

(** A page showing the press-and-hold challenge, and a product page; a
    product record is its name here. *)
Definition challenge_page : Crawl.PageVisit string :=
  {| Crawl.goto_result := Crawl.Loaded;
     Crawl.content := Some "<div id='px-captcha'>Press and Hold</div>";
     Crawl.page_url := "https://www.walmart.ca/blocked";
     Crawl.px_data := None;
     Crawl.injection_raises := false;
     Crawl.content_after_reload := None;
     Crawl.next_data_product := None;
     Crawl.dom_product := None |}.

Definition product_page : Crawl.PageVisit string :=
  {| Crawl.goto_result := Crawl.Loaded;
     Crawl.content := Some "<h1>Widget</h1>";
     Crawl.page_url := "https://www.walmart.ca/en/ip/widget/2";
     Crawl.px_data := None;
     Crawl.injection_raises := false;
     Crawl.content_after_reload := None;
     Crawl.next_data_product := Some "Widget";
     Crawl.dom_product := None |}.

End Scenarios.

(** ** More of scrapers/utils/sitemap_parser.py *)

(** What a traversal without [max_urls] emits for one sitemap. *)
Module SitemapSpec.
Import Sitemap.



(** Where a yielded entry comes from: it passed both filters and was an
    entry of a sitemap fetched in [trace]. *)
Definition sourced (web : Web) (since : option datetime)
    (url_filter : option (string → bool)) (trace : list event)
    (e : SitemapEntry) : Prop :=
  rejected_by_filter url_filter e = false ∧
  older_than_since since e = Some false ∧
  ∃ u nested entries,
    u ∈ fetched trace ∧ web u = Parsed nested entries ∧ e ∈ entries.

End SitemapSpec.

(** Python [str] methods on text.  A character is a code point below
    U+0100, which is what an [ascii] holds. *)
Module PyText.

Definition in_range (lo hi n : nat) : bool := Nat.leb lo n && Nat.leb n hi.

(** [c.lower()]: A-Z, and the capital letters of Latin-1 but the
    multiplication sign, move up by 32. *)
Definition lower_char (c : ascii) : ascii :=
  let n := nat_of_ascii c in
  if in_range 65 90 n || in_range 192 214 n || in_range 216 222 n
  then ascii_of_nat (n + 32) else c.

Fixpoint lower (s : string) : string :=
  match s with
  | EmptyString => EmptyString
  | String c rest => String (lower_char c) (lower rest)
  end.

(** [c.isspace()] *)
Definition isspace (c : ascii) : bool :=
  let n := nat_of_ascii c in
  in_range 9 13 n || in_range 28 32 n || Nat.eqb n 133 || Nat.eqb n 160.

Fixpoint lstrip (s : string) : string :=
  match s with
  | EmptyString => EmptyString
  | String c rest => if isspace c then lstrip rest else s
  end.

Fixpoint rstrip (s : string) : string :=
  match s with
  | EmptyString => EmptyString
  | String c rest =>
      match rstrip rest with
      | EmptyString => if isspace c then EmptyString else String c EmptyString
      | kept => String c kept
      end
  end.

(** [s.strip()] *)
Definition strip (s : string) : string := rstrip (lstrip s).

(** [s.split(sep)] for a one-character separator. *)
Fixpoint split (sep : ascii) (s : string) : list string :=
  match s with
  | EmptyString => [EmptyString]
  | String c rest =>
      if decide (c = sep) then EmptyString :: split sep rest
      else
        match split sep rest with
        | first :: others => String c first :: others
        | [] => [String c EmptyString]
        end
  end.

(** [s.split(sep, 1)[1]]: what follows the first separator.  [None] is the
    [IndexError] of a string without separator. *)
Fixpoint after_first (sep : ascii) (s : string) : option string :=
  match s with
  | EmptyString => None
  | String c rest => if decide (c = sep) then Some rest else after_first sep rest
  end.

(** [sep.join(lines)] with every line followed by [sep]. *)
Fixpoint unlines (sep : ascii) (lines : list string) : string :=
  match lines with
  | [] => EmptyString
  | line :: rest => line +:+ String sep (unlines sep rest)
  end.

(** No leading or trailing white space. *)
Definition stripped (s : string) : Prop := strip s = s.

(** [c] does not occur in [s]. *)
Fixpoint free_of (c : ascii) (s : string) : Prop :=
  match s with
  | EmptyString => True
  | String d rest => d ≠ c ∧ free_of c rest
  end.

End PyText.

Module Robots.
Import PyStr PyText.

Definition newline : ascii := ascii_of_nat 10.
Definition colon : ascii := ascii_of_nat 58.

(** The body of the loop of [extract_sitemaps_from_robots] for one line:
    [Some None] when the line is not a sitemap line, [Some (Some url)] when
    it is, [None] when [line.split(':', 1)[1]] raises. *)
Definition sitemap_of_line (line : string) : option (option string) :=
  let line := strip line in
  if startswith "sitemap:" (lower line)
  then
    match after_first colon line with
    | Some rest => Some (Some (strip rest))
    | None => None
    end
  else Some None.

(** The [for line in robots_content.split('\n')] loop. *)
Fixpoint collect_sitemaps (lines : list string) : option (list string) :=
  match lines with
  | [] => Some []
  | line :: rest =>
      match sitemap_of_line line with
      | None => None
      | Some found =>
          match collect_sitemaps rest with
          | None => None
          | Some sitemaps =>
              Some match found with
                   | Some url => url :: sitemaps
                   | None => sitemaps
                   end
          end
      end
  end.

(** [extract_sitemaps_from_robots]; [None] when it raises. *)
Definition extract_sitemaps_from_robots (robots_content : string)
  : option (list string) :=
  collect_sitemaps (split newline robots_content).

(** [discover_sitemaps]: [robots] is what [fetch_robots_txt] gives, [None]
    when it raises; every exception ends in the empty list. *)
Definition discover_sitemaps (robots : option string) : list string :=
  match robots with
  | Some robots_content =>
      match extract_sitemaps_from_robots robots_content with
      | Some sitemaps => sitemaps
      | None => []
      end
  | None => []
  end.

(** A robots.txt that lists [urls], one [Sitemap:] line each. *)
Definition sitemap_lines (urls : list string) : string :=
  unlines newline (map (λ url, "Sitemap: " +:+ url) urls).

End Robots.

(** [_parse_sitemap_xml], on the element tree [ET.fromstring] builds. *)
Module SitemapXml.
Import PyStr PyText Sitemap.

(** An [xml.etree] element: its tag (with the namespace in braces), its
    text ([None] for an element without text) and its children. *)
Local Unset Elimination Schemes.
Inductive Element : Type :=
| Elem (tag : string) (text : option string) (children : list Element).
Local Set Elimination Schemes.

Definition tag_of (e : Element) : string :=
  match e with Elem tag _ _ => tag end.

Definition text_of (e : Element) : option string :=
  match e with Elem _ text _ => text end.

Definition children_of (e : Element) : list Element :=
  match e with Elem _ _ children => children end.

(** All elements below [e], in document order. *)
Fixpoint descendants (e : Element) : list Element :=
  match e with
  | Elem _ _ children =>
      (fix below (siblings : list Element) : list Element :=
         match siblings with
         | [] => []
         | child :: rest => child :: descendants child ++ below rest
         end) children
  end.

(** [e.findall('.//name')] *)
Definition findall (name : string) (e : Element) : list Element :=
  List.filter (λ d, bool_decide (tag_of d = name)) (descendants e).

(** [e.find('name')]: the first child with that tag. *)
Definition find (name : string) (e : Element) : option Element :=
  List.find (λ c, bool_decide (tag_of c = name)) (children_of e).

(** [sm:name] under [SITEMAP_NS]. *)
Definition sm (name : string) : string :=
  "{http://www.sitemaps.org/schemas/sitemap/0.9}" +:+ name.

(** [loc.text] when [loc is not None and loc.text]. *)
Definition loc_text (loc : option Element) : option string :=
  match loc with
  | Some e =>
      match text_of e with
      | Some text => if truthy text then Some text else None
      | None => None
      end
  | None => None
  end.

(** [elem.text if elem is not None else None] *)
Definition text_or_none (elem : option Element) : option string :=
  match elem with
  | Some e => text_of e
  | None => None
  end.

Section WithParsers.

(** [_parse_datetime], and [float] on the text of a [priority] element
    ([None] when [float] raises, as it does on [None]). *)
Variable _parse_datetime : option string → option datetime.
Variable float : option string → option Q.

(** The loop over the [sitemap] elements of an index. *)
Definition sitemap_locations (sitemap_tag loc_tag : string) (root : Element)
  : list string :=
  omap (λ sitemap, strip <$> loc_text (find loc_tag sitemap))
       (findall sitemap_tag root).

(** The loop over the [url] elements of a url-set; [None] when [float]
    raises. *)
Fixpoint url_entries (loc_tag lastmod_tag changefreq_tag priority_tag : string)
    (url_elems : list Element) : option (list SitemapEntry) :=
  match url_elems with
  | [] => Some []
  | url_elem :: rest =>
      match loc_text (find loc_tag url_elem) with
      | None =>
          url_entries loc_tag lastmod_tag changefreq_tag priority_tag rest
      | Some text =>
          let priority :=
            match find priority_tag url_elem with
            | Some priority_elem =>
                match float (text_of priority_elem) with
                | Some p => Some (Some p)
                | None => None
                end
            | None => Some None
            end in
          match priority with
          | None => None
          | Some priority =>
              let entry :=
                {| loc := strip text;
                   lastmod :=
                     _parse_datetime
                       (text_or_none (find lastmod_tag url_elem));
                   changefreq :=
                     text_or_none (find changefreq_tag url_elem);
                   priority := priority |} in
              cons entry <$>
                url_entries loc_tag lastmod_tag changefreq_tag priority_tag
                  rest
          end
      end
  end.

(** [_parse_sitemap_xml].  [parsed] is the root [ET.fromstring] returns,
    [None] when it raises [ParseError].  The result is [Raised] when
    [float] raises: that exception is not caught here. *)
Definition _parse_sitemap_xml (parsed : option Element)
  : outcome (list string * list SitemapEntry) :=
  match parsed with
  | None => Returned ([], [])
  | Some root =>
      let root_tag := lower (tag_of root) in
      if str_in "sitemapindex" root_tag
      then
        let sitemap_urls := sitemap_locations (sm "sitemap") (sm "loc") root in
        let sitemap_urls :=
          match sitemap_urls with
          | [] => sitemap_locations "sitemap" "loc" root
          | _ => sitemap_urls
          end in
        Returned (sitemap_urls, [])
      else if str_in "urlset" root_tag
      then
        match url_entries (sm "loc") (sm "lastmod") (sm "changefreq")
                (sm "priority") (findall (sm "url") root) with
        | None => Raised "could not convert string to float"
        | Some [] =>
            match url_entries "loc" "lastmod" "changefreq" "priority"
                    (findall "url" root) with
            | None => Raised "could not convert string to float"
            | Some url_entries => Returned ([], url_entries)
            end
        | Some url_entries => Returned ([], url_entries)
        end
      else Returned ([], [])
  end.


End WithParsers.

End SitemapXml.

(** ** More of scrapers/utils/captcha_solver.py: building the manager *)

Module CaptchaInit.
Import PyStr PyText Captcha.

(** [d[key] = v] on an insertion-ordered dict: a known key keeps its
    place. *)
Fixpoint dict_set {V : Type} (d : PyDict.dict V) (key : string) (v : V)
  : PyDict.dict V :=
  match d with
  | [] => [(key, v)]
  | (k, x) :: rest =>
      if decide (k = key) then (k, v) :: rest
      else (k, x) :: dict_set rest key v
  end.

(** The configuration of the manager.  A field is [None] when the key is
    absent; [providers] maps a provider name to its [api_key] entry. *)
Record Config : Type := {
  cfg_enabled : option bool;
  cfg_primary_provider : option string;
  cfg_fallback_provider : option string;
  cfg_timeout : option Z;
  cfg_max_retries : option Z;
  cfg_providers : option (PyDict.dict (option string))
}.

(** [CaptchaSolverFactory.PROVIDERS] *)
Definition PROVIDERS : list string := ["2captcha"; "capsolver"].

Section WithServices.

Context {World : Type}.

(** What the service of a provider class does for an API key (and a
    time-out): the create-and-poll exchange and the balance endpoint. *)
Variable solve_service :
  string → string → Z →
  string → option string → option string → World →
  outcome CaptchaSolution * World.
Variable balance_service : string → string → World → balance_reply * World.

(** [CaptchaSolverFactory.create]; [Raised] is its [ValueError]. *)
Definition create (provider api_key : string) (timeout : Z)
  : outcome (Solver World) :=
  let provider := lower provider in
  if decide (provider = "2captcha")
  then Returned (TwoCaptchaSolver (solve_service "2captcha" api_key timeout)
                   (balance_service "2captcha" api_key))
  else if decide (provider = "capsolver")
  then Returned (CapSolver (solve_service "capsolver" api_key timeout)
                   (balance_service "capsolver" api_key))
  else Raised ("Unknown CAPTCHA provider: " +:+ provider
               +:+ ". Supported: ['2captcha', 'capsolver']").

(** [_init_solvers]: the loop over [providers_config.items()], from the
    solvers held so far. *)
Fixpoint _init_solvers (providers_config : PyDict.dict (option string))
    (timeout : Z) (solvers : PyDict.dict (Solver World))
  : PyDict.dict (Solver World) :=
  match providers_config with
  | [] => solvers
  | (provider_name, api_key) :: rest =>
      let solvers :=
        match api_key with
        | Some key =>
            if truthy key
            then
              match create provider_name key timeout with
              | Returned solver => dict_set solvers provider_name solver
              | Raised _ => solvers
              end
            else solvers
        | None => solvers
        end in
      _init_solvers rest timeout solvers
  end.

(** [CaptchaSolverManager.__init__] *)
Definition init (config : Config) : CaptchaSolverManager World :=
  let enabled := default false (cfg_enabled config) in
  let timeout := default 120 (cfg_timeout config) in
  {| enabled := enabled;
     primary_provider := default "capsolver" (cfg_primary_provider config);
     fallback_provider := cfg_fallback_provider config;
     timeout := timeout;
     max_retries := default 2 (cfg_max_retries config);
     solvers :=
       if enabled
       then _init_solvers (default [] (cfg_providers config)) timeout []
       else [] |}.

(** A configured provider the factory accepts: a non-empty key under a
    name that is a known provider once lowered. *)
Definition usable (provider_name : string) (api_key : option string) : bool :=
  match api_key with
  | Some key => truthy key && bool_decide (lower provider_name ∈ PROVIDERS)
  | None => false
  end.

End WithServices.

End CaptchaInit.

(** ** More of scrapers/sites/walmart_canada.py: the sitemap crawl *)

Module CrawlDriver.
Import PyStr Crawl.

Section WithCollaborators.

Context {World ProductRecord : Type}.
Variable lower : string → string.

(** What the browser answers on the [n]-th product visit of the crawl, and
    whether [save_record] of [scrapers.base] reports the record of that
    visit as saved. *)
Variable page_of : nat → PageVisit ProductRecord.
Variable save_record : nat → ProductRecord → bool.

(** The state of the loop of [scrape_from_sitemap]: the count, the number
    of product pages visited, the session, and the URLs handed to
    [save_checkpoint], oldest first. *)
Record Progress : Type := {
  scraped_count : Z;
  visits : nat;
  session : Session World;
  checkpoints : list string
}.

(** [max_products and scraped_count >= max_products] *)
Definition enough (max_products : option Z) (scraped_count : Z) : bool :=
  match max_products with
  | Some m => negb (m =? 0) && (m <=? scraped_count)
  | None => false
  end.

(** [for entry in product_entries] *)
Fixpoint scrape_entries (max_products : option Z)
    (product_entries : list Sitemap.SitemapEntry) (p : Progress) : Progress :=
  match product_entries with
  | [] => p
  | entry :: rest =>
      if enough max_products (scraped_count p) then p
      else if negb (Sitemap.filter_walmart_product_urls (Sitemap.loc entry))
      then scrape_entries max_products rest p
      else
        let '(product, s) :=
          scrape_product_page lower (Sitemap.loc entry) (page_of (visits p))
            (session p) in
        let count :=
          match product with
          | Some record =>
              if save_record (visits p) record then scraped_count p + 1
              else scraped_count p
          | None => scraped_count p
          end in
        let saved :=
          if (0 <? count) && (count mod 10 =? 0)
          then checkpoints p ++ [Sitemap.loc entry]
          else checkpoints p in
        scrape_entries max_products rest
          {| scraped_count := count; visits := S (visits p);
             session := s; checkpoints := saved |}
  end.

(** [scrape_from_sitemap].  [configured] is the [product_1p_en] entry of
    the configuration; the result is [None] when the traversal of the
    sitemap does not end within [fuel]. *)
Definition scrape_from_sitemap (fuel : nat) (web : Sitemap.Web)
    (configured : option string) (sitemap_url : option string)
    (max_products : option Z) (s : Session World) : option Progress :=
  let idle :=
    {| scraped_count := 0; visits := O; session := s; checkpoints := [] |} in
  let sitemap_url :=
    match sitemap_url with
    | Some url => if truthy url then Some url else configured
    | None => configured
    end in
  match sitemap_url with
  | None => Some idle
  | Some url =>
      if negb (truthy url) then Some idle
      else
        let s := snd (warmup_session (snd (start_browser s))) in
        let started :=
          {| scraped_count := 0; visits := O; session := s;
             checkpoints := [] |} in
        match Sitemap.get_product_urls fuel web url max_products None with
        | None => None
        | Some product_entries =>
            Some (scrape_entries max_products product_entries started)
        end
  end.

End WithCollaborators.

Arguments Progress World : clear implicits.

End CrawlDriver.

(** Relations between sessions used to state what the crawl keeps. *)
Module CrawlSpec.
Import Crawl.

Section WithWorld.
Context {World : Type}.
Implicit Types s : Session World.

(** What never changes once the scraper is built. *)
Definition same_setup s s' : Prop :=
  config s' = config s ∧ captcha_solver s' = captcha_solver s ∧
  max_consecutive_errors s' = max_consecutive_errors s.

(** The solve counters move forward by at most one attempt, and by a
    success only together with an attempt. *)
Definition solve_counters_step s s' : Prop :=
  captcha_solve_attempts s ≤ captcha_solve_attempts s' ≤
    captcha_solve_attempts s + 1 ∧
  captcha_solve_successes s ≤ captcha_solve_successes s' ∧
  captcha_solve_successes s' - captcha_solve_successes s
    ≤ captcha_solve_attempts s' - captcha_solve_attempts s.

(** The solver was not used. *)
Definition solver_untouched s s' : Prop :=
  solver_world s' = solver_world s ∧
  captcha_solve_attempts s' = captcha_solve_attempts s ∧
  captcha_solve_successes s' = captcha_solve_successes s.

(** The counters of a session are consistent. *)
Definition consistent s : Prop :=
  captcha_solve_successes s ≤ captcha_solve_attempts s ∧
  0 ≤ consecutive_errors s ≤ stats_errors s.

End WithWorld.

End CrawlSpec.

(** ** More concrete inputs *)

Module MoreScenarios.

(** An index over three url-sets, the second of which cannot be fetched; the
    index itself is listed again by the third. *)
Definition flaky_web : Sitemap.Web := λ url,
  if decide (url = "https://shop.example/index.xml")
  then Sitemap.Parsed
         [ "https://shop.example/1.xml"; "https://shop.example/2.xml";
           "https://shop.example/3.xml" ] []
  else if decide (url = "https://shop.example/1.xml")
  then Sitemap.Parsed []
         [ Scenarios.entry "https://shop.example/en/ip/widget/1" None;
           Scenarios.entry "https://shop.example/en/search?q=widget" None ]
  else if decide (url = "https://shop.example/3.xml")
  then Sitemap.Parsed []
         [ Scenarios.entry "https://shop.example/en/ip/gadget/2"
             (Some (Sitemap.Naive 50));
           Scenarios.entry "https://shop.example/en/ip/gizmo/3"
             (Some (Sitemap.Naive 150)) ]
  else Sitemap.FetchFailed.

(** A session whose manager solves every challenge at its second
    provider. *)
Definition guarded_session : Crawl.Session nat :=
  Crawl.init Scenarios.store_config Scenarios.fallback_manager 0%nat.

(** A product page behind a challenge that is gone once the token is
    injected and the page reloaded. *)
Definition cleared_page : Crawl.PageVisit string :=
  {| Crawl.goto_result := Crawl.Loaded;
     Crawl.content := Some "<div id='px-captcha'>Press and Hold</div>";
     Crawl.page_url := "https://www.walmart.ca/en/ip/widget/2";
     Crawl.px_data := None;
     Crawl.injection_raises := false;
     Crawl.content_after_reload := Some "<h1>Widget</h1>";
     Crawl.next_data_product := Some "Widget";
     Crawl.dom_product := None |}.

(** A page that does not load in time. *)
Definition slow_page : Crawl.PageVisit string :=
  {| Crawl.goto_result := Crawl.TimedOut;
     Crawl.content := None;
     Crawl.page_url := "https://www.walmart.ca/en/ip/widget/2";
     Crawl.px_data := None;
     Crawl.injection_raises := false;
     Crawl.content_after_reload := None;
     Crawl.next_data_product := None;
     Crawl.dom_product := None |}.

(** The product sitemap of a store: four entries, three of them item
    pages, one of which robots.txt excludes. *)
Definition store_web : Sitemap.Web := λ url,
  if decide (url = "https://www.walmart.ca/sitemap-products.xml")
  then Sitemap.Parsed []
         [ Scenarios.entry "https://www.walmart.ca/en/ip/widget/1" None;
           Scenarios.entry "https://www.walmart.ca/en/ip/gadget/2?f=new" None;
           Scenarios.entry "https://www.walmart.ca/en/search?q=gizmo" None;
           Scenarios.entry "https://www.walmart.ca/en/ip/gizmo/3" None ]
  else Sitemap.FetchFailed.

(** Every product page of the store loads and every record is saved. *)
Definition store_pages (n : nat) : Crawl.PageVisit string :=
  Scenarios.product_page.

Definition always_saved (n : nat) (record : string) : bool := true.

End MoreScenarios.
(** * Properties *)

(** ** Substring search *)

Module PyStrFacts.
Import PyStr.

Lemma startswith_spec p s :
  startswith p s = true ↔ ∃ after, s = p +:+ after.
Proof.
  revert s. induction p as [|a p IH]; intros s; simpl.
  - split; [intros _; by exists s | done].
  - destruct s as [|b s].
    + split; [done | intros [after H]; discriminate].
    + destruct (decide (a = b)) as [->|Hne].
      * rewrite IH. split; intros [after H]; exists after.
        -- by rewrite H.
        -- by injection H.
      * split; [done | intros [after H]; injection H; intros; congruence].
Qed.

Lemma str_in_spec p s : str_in p s = true ↔ occurs_in p s.
Proof.
  unfold occurs_in. induction s as [|b s IH]; simpl.
  - rewrite orb_false_r, startswith_spec. split.
    + intros [after H]. by exists EmptyString, after.
    + intros [[|c before] [after H]]; [by exists after | discriminate].
  - rewrite orb_true_iff, startswith_spec, IH. split.
    + intros [[after H] | (before & after & H)].
      * by exists EmptyString, after.
      * exists (String b before), after. simpl. by rewrite H.
    + intros [[|c before] [after H]].
      * left. by exists after.
      * right. simpl in H. injection H as _ H. by exists before, after.
Qed.

Lemma str_in_false_spec p s : str_in p s = false ↔ ¬ occurs_in p s.
Proof. rewrite <- str_in_spec. by destruct (str_in p s). Qed.

End PyStrFacts.

(** ** Sitemap traversal *)

Module SitemapFacts.
Import PyStr PyStrFacts Sitemap.

Lemma no_pattern_in_spec patterns url :
  no_pattern_in patterns url = true ↔ ∀ p, p ∈ patterns → ¬ occurs_in p url.
Proof.
  induction patterns as [|q rest IH]; simpl.
  - split; [intros _ p Hp; by apply not_elem_of_nil in Hp | done].
  - destruct (str_in q url) eqn:Hq.
    + split; [done |]. intros H. exfalso.
      apply (H q); [by left | by apply str_in_spec].
    + rewrite IH. split.
      * intros H p Hp. apply elem_of_cons in Hp as [-> | Hp]; [| by apply H].
        by apply str_in_false_spec.
      * intros H p Hp. apply H. by right.
Qed.

(** *** Traces *)

Lemma fetched_app t1 t2 : fetched (t1 ++ t2) = fetched t1 ++ fetched t2.
Proof. apply omap_app. Qed.

Lemma yielded_app t1 t2 : yielded (t1 ++ t2) = yielded t1 ++ yielded t2.
Proof. apply omap_app. Qed.

Lemma fetched_yields out : fetched (map Yield out) = [].
Proof. induction out; simpl; auto. Qed.

Lemma yielded_yields out : yielded (map Yield out) = out.
Proof.
  induction out as [|e out IH]; [done|].
  change (yielded (map Yield (e :: out))) with (e :: yielded (map Yield out)).
  by rewrite IH.
Qed.

Lemma fetched_visit u out later :
  fetched (Fetch u :: map Yield out ++ later) = u :: fetched later.
Proof.
  change (fetched (Fetch u :: map Yield out ++ later))
    with (u :: fetched (map Yield out ++ later)).
  by rewrite fetched_app, fetched_yields.
Qed.

Lemma yielded_visit u out later :
  yielded (Fetch u :: map Yield out ++ later) = out ++ yielded later.
Proof.
  change (yielded (Fetch u :: map Yield out ++ later))
    with (yielded (map Yield out ++ later)).
  by rewrite yielded_app, yielded_yields.
Qed.

(** *** [max_urls = 0] *)

Lemma yield_entries_zero since url_filter entries n :
  yield_entries since url_filter (Some 0) entries n =
  yield_entries since url_filter None entries n.
Proof.
  revert n. induction entries as [|e es IH]; intros n; simpl; [done|].
  destruct (older_than_since since e) as [[]|]; auto.
  destruct (rejected_by_filter url_filter e); auto.
  by rewrite IH.
Qed.

Lemma parse_loop_zero fuel web recursive since url_filter queue visited n :
  parse_loop fuel web recursive since url_filter (Some 0) queue visited n =
  parse_loop fuel web recursive since url_filter None queue visited n.
Proof.
  revert queue visited n.
  induction fuel as [|fuel IH]; intros [|u queue] visited n; simpl; try done.
  destruct (decide (u ∈ visited)); [apply IH|].
  destruct (web u) as [|nested entries]; [by rewrite IH|].
  rewrite yield_entries_zero.
  destruct (yield_entries since url_filter None entries n) as [[out n'] how].
  destruct how; by rewrite ?IH.
Qed.

(** *** Each sitemap is fetched once *)

Lemma fresh_cons (u : string) (visited : gset string) (l : list string) :
  u ∉ visited →
  NoDup l ∧ (∀ v, v ∈ l → v ∉ visited ∪ {[u]}) →
  NoDup (u :: l) ∧ ∀ v, v ∈ u :: l → v ∉ visited.
Proof.
  intros Hu [Hnodup Hfresh]. split.
  - constructor; [|done]. intros Hin. apply (Hfresh _ Hin).
    apply elem_of_union. right. by apply elem_of_singleton.
  - intros v [->|Hv]%elem_of_cons; [done|]. intros Hin.
    apply (Hfresh _ Hv). apply elem_of_union. by left.
Qed.

Lemma parse_loop_fetches_fresh fuel web recursive since url_filter max_urls
    queue visited n trace :
  parse_loop fuel web recursive since url_filter max_urls queue visited n
    = Some trace →
  NoDup (fetched trace) ∧ ∀ u, u ∈ fetched trace → u ∉ visited.
Proof.
  assert (Hnil : ∀ visited : gset string,
            NoDup (fetched []) ∧ ∀ u, u ∈ fetched [] → u ∉ visited).
  { intros visited'. split; [constructor|]. by intros u Hu%not_elem_of_nil. }
  revert queue visited n trace.
  induction fuel as [|fuel IH]; intros [|u queue] visited n trace; simpl.
  - intros [= <-]. apply Hnil.
  - done.
  - intros [= <-]. apply Hnil.
  - destruct (decide (u ∈ visited)) as [Hin|Hout]; [apply IH|].
    destruct (web u) as [|nested entries].
    + destruct (parse_loop fuel _ _ _ _ _ queue _ n) as [later|] eqn:Hlater;
        [|done].
      intros [= <-]. apply IH in Hlater.
      change (fetched (Fetch u :: later)) with (u :: fetched later).
      by apply fresh_cons.
    + destruct (yield_entries since url_filter max_urls entries n)
        as [[out n'] how].
      destruct how.
      2:{ intros [= <-].
          change (fetched (Fetch u :: map Yield out))
            with (u :: fetched (map Yield out)).
          rewrite fetched_yields. apply fresh_cons; [done|]. apply Hnil. }
      all: destruct (parse_loop fuel _ _ _ _ _ _ _ n') as [later|] eqn:Hlater;
        [|done].
      all: intros [= <-]; apply IH in Hlater.
      all: rewrite fetched_visit; by apply fresh_cons.
Qed.

(** *** Enough fuel *)

Lemma pending_weight_visit web universe (visited : gset string) u :
  u ∈ universe → u ∉ visited →
  (pending_weight web universe (visited ∪ {[u]})
     + S (length (nested_of web u))
   ≤ pending_weight web universe visited)%nat.
Proof.
  unfold pending_weight. intros Hu Hfresh.
  induction universe as [|v universe IH]; [by apply not_elem_of_nil in Hu|].
  assert (Hmono : (sum_list (map (λ x, if decide (x ∈ visited ∪ {[u]}) then O
                              else S (length (nested_of web x))) universe)
                   ≤ sum_list (map (λ x, if decide (x ∈ visited) then O
                              else S (length (nested_of web x))) universe))%nat).
  { clear. induction universe as [|x xs IHxs]; simpl; [lia|].
    destruct (decide (x ∈ visited ∪ {[u]})) as [_|Hx];
      destruct (decide (x ∈ visited)) as [Hx'|_]; try lia.
    exfalso. apply Hx, elem_of_union. by left. }
  simpl. apply elem_of_cons in Hu as [<-|Hu].
  - destruct (decide (u ∈ visited ∪ {[u]})) as [_|Hx].
    + destruct (decide (u ∈ visited)); [done|]. lia.
    + exfalso. apply Hx, elem_of_union. right. by apply elem_of_singleton.
  - specialize (IH Hu).
    destruct (decide (v ∈ visited ∪ {[u]})) as [_|Hx];
      destruct (decide (v ∈ visited)) as [Hx'|_]; try lia.
    exfalso. apply Hx, elem_of_union. by left.
Qed.

Lemma parse_loop_enough_fuel web universe recursive since url_filter max_urls :
  closed_under_nesting web universe →
  ∀ fuel queue visited n,
    Forall (λ u, u ∈ universe) queue →
    (length queue + pending_weight web universe visited ≤ fuel)%nat →
    is_Some (parse_loop fuel web recursive since url_filter max_urls
               queue visited n).
Proof.
  intros Hclosed.
  induction fuel as [|fuel IH]; intros [|u queue] visited n Hqueue Hfuel;
    simpl in *; try by eexists.
  - lia.
  - apply Forall_cons in Hqueue as [Hu Hqueue].
    destruct (decide (u ∈ visited)) as [Hin|Hout].
    { apply IH; [done | lia]. }
    pose proof (pending_weight_visit web universe visited u Hu Hout) as Hw.
    destruct (web u) as [|nested entries] eqn:Hweb.
    + apply fmap_is_Some. apply IH; [done | lia].
    + unfold nested_of in Hw. rewrite Hweb in Hw.
      destruct (yield_entries since url_filter max_urls entries n)
        as [[out n'] how].
      assert (Hnext : ∀ k, is_Some (parse_loop fuel web recursive since
                url_filter max_urls
                (if recursive then queue ++ nested else queue)
                (visited ∪ {[u]}) k)).
      { intros k. apply IH.
        - destruct recursive; [|done]. apply Forall_app. split; [done|].
          apply Forall_forall. intros v Hv. by eapply Hclosed.
        - destruct recursive; rewrite ?length_app; lia. }
      destruct how; [|by eexists|]; apply fmap_is_Some, Hnext.
Qed.

Lemma parse_loop_more_fuel web recursive since url_filter max_urls
    fuel fuel' queue visited n trace :
  (fuel ≤ fuel')%nat →
  parse_loop fuel web recursive since url_filter max_urls queue visited n
    = Some trace →
  parse_loop fuel' web recursive since url_filter max_urls queue visited n
    = Some trace.
Proof.
  revert fuel' queue visited n trace.
  induction fuel as [|fuel IH]; intros fuel' [|u queue] visited n trace Hle;
    simpl; try done.
  - intros [= <-]. by destruct fuel'.
  - intros [= <-]. by destruct fuel'.
  - destruct fuel' as [|fuel']; [lia|]. simpl.
    assert (Hle' : (fuel ≤ fuel')%nat) by lia.
    destruct (decide (u ∈ visited)); [by apply IH|].
    destruct (web u) as [|nested entries].
    + destruct (parse_loop fuel _ _ _ _ _ queue _ n) as [later|] eqn:Hlater;
        [|done].
      intros [= <-]. by rewrite (IH _ _ _ _ _ Hle' Hlater).
    + destruct (yield_entries since url_filter max_urls entries n)
        as [[out n'] how].
      destruct how; [|done|].
      all: destruct (parse_loop fuel _ _ _ _ _ _ _ n') as [later|] eqn:Hlater;
        [|done].
      all: intros [= <-]; by rewrite (IH _ _ _ _ _ Hle' Hlater).
Qed.

(** *** Stopping at [max_urls] *)

Lemma yield_entries_unbounded since url_filter entries n out n' how :
  yield_entries since url_filter None entries n = (out, n', how) →
  n' = n + Z.of_nat (length out) ∧ how ≠ LimitReached.
Proof.
  revert n out n' how.
  induction entries as [|e es IH]; intros n out n' how; simpl.
  - intros [= <- <- <-]. simpl. split; [lia | done].
  - destruct (older_than_since since e) as [[]|].
    + apply IH.
    + destruct (rejected_by_filter url_filter e); [apply IH|].
      destruct (yield_entries since url_filter None es (n + 1))
        as [[more m] how'] eqn:Hmore.
      intros [= <- <- <-]. apply IH in Hmore as [-> Hhow].
      simpl length. split; [lia | done].
    + intros [= <- <- <-]. simpl. split; [lia | done].
Qed.

Lemma yield_entries_limit since url_filter k entries n out n' how :
  0 < k → n < k →
  yield_entries since url_filter None entries n = (out, n', how) →
  (n + Z.of_nat (length out) < k →
     yield_entries since url_filter (Some k) entries n = (out, n', how)) ∧
  (k ≤ n + Z.of_nat (length out) →
     yield_entries since url_filter (Some k) entries n
       = (take (Z.to_nat (k - n)) out, k, LimitReached)).
Proof.
  intros Hk. revert n out n' how.
  induction entries as [|e es IH]; intros n out n' how Hn; simpl.
  - intros [= <- <- <-]. simpl. split; [done | lia].
  - destruct (older_than_since since e) as [[]|].
    + by apply IH.
    + destruct (rejected_by_filter url_filter e); [by apply IH|].
      destruct (yield_entries since url_filter None es (n + 1))
        as [[more m] how'] eqn:Hmore.
      intros [= <- <- <-]. simpl length.
      destruct (decide (k = n + 1)) as [->|Hne].
      * assert (Hif : negb (n + 1 =? 0) && (n + 1 <=? n + 1) = true).
        { apply andb_true_iff. split; [apply negb_true_iff|]; lia. }
        rewrite Hif. split; [lia|].
        intros _. by replace (Z.to_nat (n + 1 - n)) with 1%nat by lia.
      * destruct (IH (n + 1) more m how') as (Hbelow & Habove); [lia|done|].
        assert (Hif : negb (k =? 0) && (k <=? n + 1) = false).
        { apply andb_false_iff. right. lia. }
        rewrite Hif. split.
        -- intros Hlt. rewrite Hbelow by lia. done.
        -- intros Hge. rewrite Habove by lia.
           replace (Z.to_nat (k - n)) with (S (Z.to_nat (k - (n + 1)))) by lia.
           done.
    + intros [= <- <- <-]. simpl. split; [done | lia].
Qed.

Lemma parse_loop_limit web recursive since url_filter k :
  0 < k →
  ∀ fuel queue visited n all,
    n < k →
    parse_loop fuel web recursive since url_filter None queue visited n
      = Some all →
    (n + Z.of_nat (length (yielded all)) < k →
       parse_loop fuel web recursive since url_filter (Some k) queue visited n
         = Some all) ∧
    (k ≤ n + Z.of_nat (length (yielded all)) →
       ∃ trace rest final,
         parse_loop fuel web recursive since url_filter (Some k)
           queue visited n = Some trace ∧
         all = trace ++ rest ∧
         last trace = Some (Yield final) ∧
         n + Z.of_nat (length (yielded trace)) = k).
Proof.
  intros Hk.
  induction fuel as [|fuel IH]; intros [|u queue] visited n all Hn; simpl;
    try done.
  1,2: intros [= <-]; simpl; split; [done | lia].
  destruct (decide (u ∈ visited)); [by apply IH|].
  destruct (web u) as [|nested entries].
  - destruct (parse_loop fuel _ _ _ _ None queue _ n) as [later|] eqn:Hlater;
      [|done].
    intros [= <-]. destruct (IH _ _ _ _ Hn Hlater) as [Hbelow Habove].
    change (yielded (Fetch u :: later)) with (yielded later). split.
    + intros Hlt. by rewrite Hbelow.
    + intros Hge. destruct (Habove Hge) as (trace & rest & final & -> & -> & Hlast & Hlen).
      exists (Fetch u :: trace), rest, final. repeat split; try done.
      destruct trace; [done|]. done.
  - destruct (yield_entries since url_filter None entries n)
      as [[out n'] how] eqn:Hout.
    destruct (yield_entries_unbounded _ _ _ _ _ _ _ Hout) as [-> Hhow].
    destruct (yield_entries_limit _ _ k _ _ _ _ _ Hk Hn Hout)
      as (Hbelow & Habove).
    assert (Hcont : ∀ later,
      parse_loop fuel web recursive since url_filter None
        (if recursive then queue ++ nested else queue) (visited ∪ {[u]})
        (n + Z.of_nat (length out)) = Some later →
      (n + Z.of_nat (length (yielded (Fetch u :: map Yield out ++ later))) < k →
         match yield_entries since url_filter (Some k) entries n with
         | (out0, n0, LimitReached) => Some (Fetch u :: map Yield out0)
         | (out0, n0, _) =>
             (λ later0, Fetch u :: map Yield out0 ++ later0) <$>
               parse_loop fuel web recursive since url_filter (Some k)
                 (if recursive then queue ++ nested else queue)
                 (visited ∪ {[u]}) n0
         end = Some (Fetch u :: map Yield out ++ later)) ∧
      (k ≤ n + Z.of_nat (length (yielded (Fetch u :: map Yield out ++ later))) →
         ∃ trace rest final,
           match yield_entries since url_filter (Some k) entries n with
           | (out0, n0, LimitReached) => Some (Fetch u :: map Yield out0)
           | (out0, n0, _) =>
               (λ later0, Fetch u :: map Yield out0 ++ later0) <$>
                 parse_loop fuel web recursive since url_filter (Some k)
                   (if recursive then queue ++ nested else queue)
                   (visited ∪ {[u]}) n0
           end = Some trace ∧
           Fetch u :: map Yield out ++ later = trace ++ rest ∧
           last trace = Some (Yield final) ∧
           n + Z.of_nat (length (yielded trace)) = k)).
    { intros later Hlater. rewrite yielded_visit, length_app.
      destruct (decide (n + Z.of_nat (length out) < k)) as [Hlt|Hge].
      - rewrite (Hbelow Hlt).
        destruct (IH _ _ _ _ Hlt Hlater) as [Hbelow' Habove'].
        split.
        + intros Hlt'. rewrite Hbelow' by lia. by destruct how.
        + intros Hge'.
          destruct Habove' as (trace & rest & final & -> & -> & Hlast & Hlen);
            [lia|].
          exists (Fetch u :: map Yield out ++ trace), rest, final.
          repeat split.
          * by destruct how.
          * simpl. by rewrite <- (assoc_L app).
          * change (Fetch u :: map Yield out ++ trace)
              with ((Fetch u :: map Yield out) ++ trace).
            rewrite last_app, Hlast. done.
          * rewrite yielded_visit, length_app. lia.
      - rewrite Habove by lia. split; [lia|]. intros _.
        assert (Hlen : (Z.to_nat (k - n) ≤ length out)%nat) by lia.
        assert (Hpos : (0 < Z.to_nat (k - n))%nat) by lia.
        destruct (last (take (Z.to_nat (k - n)) out)) as [final|] eqn:Hfinal.
        2:{ apply last_None in Hfinal.
            apply (f_equal length) in Hfinal.
            rewrite length_take_le in Hfinal by done. simpl in Hfinal. lia. }
        exists (Fetch u :: map Yield (take (Z.to_nat (k - n)) out)),
               (map Yield (drop (Z.to_nat (k - n)) out) ++ later), final.
        repeat split.
        + simpl. f_equal. rewrite (assoc_L app), <- map_app.
          by rewrite take_drop.
        + change (Fetch u :: map Yield (take (Z.to_nat (k - n)) out))
            with ([Fetch u] ++ map Yield (take (Z.to_nat (k - n)) out)).
          rewrite last_app.
          replace (map Yield (take (Z.to_nat (k - n)) out))
            with (Yield <$> take (Z.to_nat (k - n)) out) by done.
          by rewrite fmap_last, Hfinal.
        + change (yielded (Fetch u :: map Yield (take (Z.to_nat (k - n)) out)))
            with (yielded (map Yield (take (Z.to_nat (k - n)) out))).
          rewrite yielded_yields, length_take_le by done. lia. }
    destruct how; [|done|].
    all: destruct (parse_loop fuel _ _ _ _ None _ _ _) as [later|] eqn:Hlater;
      [|done].
    all: intros [= <-]; by apply Hcont.
Qed.

(** *** The [since] filter *)

Lemma yield_entries_since since entries n :
  Forall (comparable since) entries →
  yield_entries (Some since) None None entries n
    = (List.filter (kept_by_since since) entries,
       n + Z.of_nat (length (List.filter (kept_by_since since) entries)),
       Exhausted).
Proof.
  revert n. induction entries as [|e es IH]; intros n Hall; simpl.
  - do 2 f_equal. lia.
  - apply Forall_cons in Hall as [He Hall].
    unfold comparable in He. unfold older_than_since.
    destruct (lastmod e) as [lm|] eqn:Hlm.
    + destruct He as [b Hb]. rewrite Hb.
      assert (Hkept : kept_by_since since e = negb b).
      { unfold kept_by_since. rewrite Hlm, Hb. by destruct b. }
      rewrite Hkept. destruct b; simpl.
      * by apply IH.
      * rewrite IH by done. simpl length. do 2 f_equal. lia.
    + assert (Hkept : kept_by_since since e = true).
      { unfold kept_by_since. by rewrite Hlm. }
      rewrite Hkept. simpl. rewrite IH by done. simpl length.
      do 2 f_equal. lia.
Qed.

Lemma cyclic_web_closed :
  closed_under_nesting Scenarios.cyclic_web
    ["https://loop.example/A.xml"; "https://loop.example/B.xml"].
Proof.
  intros u nested entries Hu Hweb v Hv.
  apply elem_of_cons in Hu as [->|Hu];
    [|apply list_elem_of_singleton in Hu as ->];
    vm_compute in Hweb; injection Hweb as <- _;
    apply list_elem_of_singleton in Hv as ->.
  - apply elem_of_cons. right. by apply list_elem_of_singleton.
  - apply elem_of_cons. by left.
Qed.

End SitemapFacts.

(** ** The claims about the sitemap traverser *)

(** C3. For every sitemap graph that lies within a finite set of URLs,
    cyclic or not, [parse_sitemap] with [recursive=True] terminates (any
    number of loop iterations from [enough_fuel] on gives the same trace)
    and fetches no sitemap URL twice. *)
Theorem parse_sitemap_terminates_fetching_once
    (web : Sitemap.Web) (universe : list string) (url : string)
    (since : option Sitemap.datetime) (url_filter : option (string → bool))
    (max_urls : option Z) :
  url ∈ universe →
  Sitemap.closed_under_nesting web universe →
  ∃ trace,
    (∀ fuel, (Sitemap.enough_fuel web universe ≤ fuel)%nat →
       Sitemap.parse_sitemap fuel web url true since url_filter max_urls
         = Some trace) ∧
    NoDup (Sitemap.fetched trace).
Proof.
  intros Hurl Hclosed. unfold Sitemap.parse_sitemap.
  destruct (SitemapFacts.parse_loop_enough_fuel web universe true since
              url_filter max_urls Hclosed (Sitemap.enough_fuel web universe)
              [url] ∅ 0) as [trace Htrace].
  { by apply Forall_singleton. }
  { unfold Sitemap.enough_fuel. simpl. lia. }
  exists trace. split.
  - intros fuel Hfuel. by eapply SitemapFacts.parse_loop_more_fuel.
  - by apply SitemapFacts.parse_loop_fetches_fresh in Htrace as [? _].
Qed.

Lemma parse_sitemap_terminates_fetching_once_witness :
  ∃ trace,
    (∀ fuel, (5 ≤ fuel)%nat →
       Sitemap.parse_sitemap fuel Scenarios.cyclic_web
         "https://loop.example/A.xml" true None None None = Some trace) ∧
    NoDup (Sitemap.fetched trace).
Proof.
  apply (parse_sitemap_terminates_fetching_once Scenarios.cyclic_web
           ["https://loop.example/A.xml"; "https://loop.example/B.xml"]).
  - apply elem_of_cons. by left.
  - apply SitemapFacts.cyclic_web_closed.
Defined.

(** C4. With a positive bound [k] and a source whose unbounded traversal
    yields more than [k] eligible entries, [get_product_urls] returns
    exactly [k] entries, the first [k] eligible ones, and the traversal is a
    prefix of the unbounded one that ends with the [k]-th yield: nothing is
    fetched after it. *)
Theorem get_product_urls_stops_at_limit
    (fuel : nat) (web : Sitemap.Web) (sitemap_url : string)
    (since : option Sitemap.datetime) (k : Z) (all : list Sitemap.event) :
  0 < k →
  Sitemap.get_product_urls_events fuel web sitemap_url None since = Some all →
  k < Z.of_nat (length (Sitemap.yielded all)) →
  ∃ trace abandoned final,
    Sitemap.get_product_urls_events fuel web sitemap_url (Some k) since
      = Some trace ∧
    Sitemap.get_product_urls fuel web sitemap_url (Some k) since
      = Some (Sitemap.yielded trace) ∧
    Z.of_nat (length (Sitemap.yielded trace)) = k ∧
    Sitemap.yielded trace = take (Z.to_nat k) (Sitemap.yielded all) ∧
    all = trace ++ abandoned ∧
    last trace = Some (Sitemap.Yield final).
Proof.
  intros Hk Hall Hmore.
  unfold Sitemap.get_product_urls, Sitemap.get_product_urls_events,
    Sitemap.parse_sitemap in *.
  destruct (SitemapFacts.parse_loop_limit web true since
              (Some Sitemap.product_url_filter) k Hk fuel
              [sitemap_url] ∅ 0 all) as [_ Habove]; [lia | done |].
  destruct Habove as (trace & rest & final & Htrace & -> & Hlast & Hlen);
    [lia|].
  exists trace, rest, final. rewrite Htrace.
  split; [done|]. split; [done|]. split; [lia|]. split; [|done].
  rewrite SitemapFacts.yielded_app. rewrite take_app_length'; [done | lia].
Qed.

Lemma get_product_urls_stops_at_limit_witness :
  ∃ trace abandoned final,
    Sitemap.get_product_urls_events 10 Scenarios.shop_web
      "https://shop.example/sitemap.xml" (Some 3) None = Some trace ∧
    Sitemap.get_product_urls 10 Scenarios.shop_web
      "https://shop.example/sitemap.xml" (Some 3) None
      = Some (Sitemap.yielded trace) ∧
    Z.of_nat (length (Sitemap.yielded trace)) = 3 ∧
    Sitemap.yielded trace
      = take (Z.to_nat 3)
          (Sitemap.yielded
             [ Sitemap.Fetch "https://shop.example/sitemap.xml";
               Sitemap.Fetch "https://shop.example/a.xml";
               Sitemap.Yield
                 (Scenarios.entry "https://shop.example/en/ip/widget/1" None);
               Sitemap.Yield
                 (Scenarios.entry "https://shop.example/en/ip/gadget/2" None);
               Sitemap.Fetch "https://shop.example/b.xml";
               Sitemap.Yield
                 (Scenarios.entry "https://shop.example/fr/produit/truc/3" None);
               Sitemap.Yield
                 (Scenarios.entry "https://shop.example/en/ip/gizmo/4" None) ]) ∧
    [ Sitemap.Fetch "https://shop.example/sitemap.xml";
      Sitemap.Fetch "https://shop.example/a.xml";
      Sitemap.Yield
        (Scenarios.entry "https://shop.example/en/ip/widget/1" None);
      Sitemap.Yield
        (Scenarios.entry "https://shop.example/en/ip/gadget/2" None);
      Sitemap.Fetch "https://shop.example/b.xml";
      Sitemap.Yield
        (Scenarios.entry "https://shop.example/fr/produit/truc/3" None);
      Sitemap.Yield
        (Scenarios.entry "https://shop.example/en/ip/gizmo/4" None) ]
      = trace ++ abandoned ∧
    last trace = Some (Sitemap.Yield final).
Proof.
  apply (get_product_urls_stops_at_limit 10 Scenarios.shop_web
           "https://shop.example/sitemap.xml" None 3).
  - lia.
  - vm_compute. reflexivity.
  - vm_compute. reflexivity.
Defined.

(** C7. A [since] of one kind (naive) against a [lastmod] of the other
    (aware): the comparison raises, the handler of the enclosing [try]
    swallows it, and the rest of the document is lost.  Without [since] the
    traversal yields both entries of the document; with it, none, although
    no entry is older than [since] and the second has no [lastmod]. *)
Theorem since_filter_drops_undated_entry :
  Sitemap.parse_sitemap 2 Scenarios.dated_web
    "https://dated.example/sitemap.xml" true None None None
    = Some [ Sitemap.Fetch "https://dated.example/sitemap.xml";
             Sitemap.Yield (Scenarios.entry "https://dated.example/en/ip/new/1"
                              (Some (Sitemap.Aware 200)));
             Sitemap.Yield (Scenarios.entry
                              "https://dated.example/en/ip/undated/2" None) ] ∧
  Sitemap.parse_sitemap 2 Scenarios.dated_web
    "https://dated.example/sitemap.xml" true (Some (Sitemap.Naive 100))
    None None
    = Some [ Sitemap.Fetch "https://dated.example/sitemap.xml" ] ∧
  Sitemap.datetime_lt (Sitemap.Aware 200) (Sitemap.Naive 100) = None.
Proof. by vm_compute. Qed.

(** C8. [filter_walmart_product_urls] accepts a URL exactly when it contains
    an item-page marker ([/ip/] or [/produit/]) and none of the disallowed
    markers; the three URLs of the specification evaluate as stated. *)
Theorem filter_walmart_product_urls_iff :
  (∀ url : string,
     Sitemap.filter_walmart_product_urls url = true ↔
     (PyStr.occurs_in "/ip/" url ∨ PyStr.occurs_in "/produit/" url) ∧
     (∀ p, p ∈ Sitemap.disallowed_patterns → ¬ PyStr.occurs_in p url)) ∧
  Sitemap.filter_walmart_product_urls "/en/ip/widget/12345" = true ∧
  Sitemap.filter_walmart_product_urls "/en/ip/widget/12345?f=color" = false ∧
  Sitemap.filter_walmart_product_urls "/search?q=widget" = false.
Proof.
  split; [| by vm_compute].
  intros url. unfold Sitemap.filter_walmart_product_urls.
  rewrite <- SitemapFacts.no_pattern_in_spec, <- !PyStrFacts.str_in_spec.
  destruct (PyStr.str_in "/ip/" url), (PyStr.str_in "/produit/" url); simpl;
    intuition discriminate.
Qed.

(** C9. [max_urls=0] is no limit: [parse_sitemap] and [get_product_urls]
    behave with [0] exactly as with [None], so every eligible entry is
    returned; on the example shop that is four entries, not zero. *)
Theorem max_urls_zero_is_no_limit :
  (∀ fuel web url recursive since url_filter,
     Sitemap.parse_sitemap fuel web url recursive since url_filter (Some 0)
     = Sitemap.parse_sitemap fuel web url recursive since url_filter None) ∧
  (∀ fuel web sitemap_url since,
     Sitemap.get_product_urls fuel web sitemap_url (Some 0) since
     = Sitemap.get_product_urls fuel web sitemap_url None since) ∧
  Sitemap.get_product_urls 10 Scenarios.shop_web
    "https://shop.example/sitemap.xml" (Some 0) None
  = Some [ Scenarios.entry "https://shop.example/en/ip/widget/1" None;
           Scenarios.entry "https://shop.example/en/ip/gadget/2" None;
           Scenarios.entry "https://shop.example/fr/produit/truc/3" None;
           Scenarios.entry "https://shop.example/en/ip/gizmo/4" None ].
Proof.
  split; [|split].
  - intros. apply SitemapFacts.parse_loop_zero.
  - intros. unfold Sitemap.get_product_urls, Sitemap.get_product_urls_events,
      Sitemap.parse_sitemap.
    by rewrite SitemapFacts.parse_loop_zero.
  - by vm_compute.
Qed.

(** ** The solver manager *)

Module CaptchaFacts.
Import PyStr Captcha.

Section WithWorld.
Context {World : Type}.
Implicit Types (m : CaptchaSolverManager World) (solver : Solver World).
Implicit Types (w : World) (log : list attempt).

Lemma last_error_from_app initial log1 log2 :
  last_error_from initial (log1 ++ log2)
  = last_error_from (last_error_from initial log1) log2.
Proof.
  unfold last_error_from. rewrite last_app.
  by destruct (last log2) as [[? ?]|].
Qed.

Lemma all_failed_app log1 log2 :
  all_failed (log1 ++ log2) ↔ all_failed log1 ∧ all_failed log2.
Proof. apply Forall_app. Qed.

(** What the inner loop does for one provider. *)
Lemma retry_spec solver name site_url data_blob user_agent attempts initial
    w r w' log :
  retry solver name site_url data_blob user_agent attempts initial w
    = (r, w', log) →
  map fst log = replicate (length log) name ∧
  (length log ≤ attempts)%nat ∧
  match r with
  | inl result =>
      success result = true ∧
      ∃ earlier, log = earlier ++ [(name, Returned result)] ∧
                 all_failed earlier
  | inr last_error =>
      length log = attempts ∧ all_failed log ∧
      last_error = last_error_from initial log
  end.
Proof.
  revert initial w r w' log.
  induction attempts as [|attempts IH]; intros initial w r w' log; simpl.
  - intros [= <- <- <-]. repeat split; try done. constructor.
  - destruct (solver_solve_perimeterx solver site_url data_blob user_agent w)
      as [o w1].
    assert (Hstep : ∀ initial' r0 w0 log0,
      failed o → initial' = error_of o →
      retry solver name site_url data_blob user_agent attempts initial' w1
        = (r0, w0, log0) →
      (r0, w0, (name, o) :: log0) = (r, w', log) →
      map fst log = replicate (length log) name ∧
      (length log ≤ S attempts)%nat ∧
      match r with
      | inl result =>
          success result = true ∧
          ∃ earlier, log = earlier ++ [(name, Returned result)] ∧
                     all_failed earlier
      | inr last_error =>
          length log = S attempts ∧ all_failed log ∧
          last_error = last_error_from initial log
      end).
    { intros initial' r0 w0 log0 Hfailed -> Hrest [= <- <- <-].
      apply IH in Hrest as (Hnames & Hlen & Hr). simpl.
      split; [by rewrite Hnames|]. split; [lia|].
      destruct r0 as [result|last_error].
      - destruct Hr as (Hok & earlier & -> & Hearlier).
        split; [done|]. exists ((name, o) :: earlier).
        split; [done|]. by constructor.
      - destruct Hr as (<- & Hlog & ->). split; [done|].
        split; [by constructor|].
        change ((name, o) :: log0) with ([(name, o)] ++ log0).
        by rewrite last_error_from_app. }
    destruct o as [result|message].
    + destruct (success result) eqn:Hok.
      * intros [= <- <- <-]. simpl. split; [done|]. split; [lia|].
        split; [done|]. exists []. split; [done | constructor].
      * destruct (retry solver name site_url data_blob user_agent attempts
                    (error result) w1) as [[r0 w0] log0] eqn:Hrest.
        by apply (Hstep (error result) r0 w0 log0).
    + destruct (retry solver name site_url data_blob user_agent attempts
                  (Some message) w1) as [[r0 w0] log0] eqn:Hrest.
      by apply (Hstep (Some message) r0 w0 log0).
Qed.

(** What the loop over the providers does. *)
Lemma try_providers_spec m providers site_url data_blob user_agent initial
    w r w' log :
  try_providers m providers site_url data_blob user_agent initial w
    = (r, w', log) →
  map fst log `prefix_of` schedule_of m providers ∧
  match r with
  | inl result =>
      success result = true ∧
      ∃ earlier name, log = earlier ++ [(name, Returned result)] ∧
                      all_failed earlier
  | inr last_error =>
      map fst log = schedule_of m providers ∧ all_failed log ∧
      last_error = last_error_from initial log
  end.
Proof.
  revert initial w r w' log.
  induction providers as [|name rest IH]; intros initial w r w' log; simpl.
  - intros [= <- <- <-]. split; [done|]. repeat split; try done. constructor.
  - destruct (PyDict.get (solvers m) name) as [solver|]; [|apply IH].
    destruct (retry solver name site_url data_blob user_agent
                (Z.to_nat (max_retries m)) initial w)
      as [[r1 w1] log1] eqn:Hretry.
    apply retry_spec in Hretry as (Hnames & Hlen & Hr1).
    destruct r1 as [result|last_error].
    + intros [= <- <- <-]. split.
      2:{ destruct Hr1 as (Hok & earlier & -> & Hearlier).
          split; [done|]. by exists earlier, name. }
      unfold attempt in *. rewrite Hnames.
      exists (replicate (Z.to_nat (max_retries m) - length log1) name
              ++ schedule_of m rest).
      rewrite (assoc_L app), <- replicate_add. do 2 f_equal. lia.
    + destruct Hr1 as (Hfull & Hfailed1 & ->).
      destruct (try_providers m rest site_url data_blob user_agent
                  (last_error_from initial log1) w1)
        as [[r2 w2] log2] eqn:Hrest.
      intros [= <- <- <-]. apply IH in Hrest as (Hprefix & Hr2).
      unfold attempt in *. rewrite map_app, Hnames, Hfull. split.
      * by apply prefix_app.
      * destruct r2 as [result|last_error].
        -- destruct Hr2 as (Hok & earlier & name' & -> & Hearlier).
           split; [done|]. exists (log1 ++ earlier), name'.
           split; [by rewrite (assoc_L app)|]. by apply all_failed_app.
        -- destruct Hr2 as (-> & Hfailed2 & ->).
           split; [done|]. split; [by apply all_failed_app|].
           by rewrite last_error_from_app.
Qed.

(** [attempts] failures in a row use up the retries of a provider. *)
Lemma retry_failing solver name site_url data_blob user_agent attempts
    initial w os w1 :
  replay solver site_url data_blob user_agent attempts w = (os, w1) →
  Forall failed os →
  retry solver name site_url data_blob user_agent attempts initial w
    = (inr (last_error_from initial (map (pair name) os)), w1,
       map (pair name) os).
Proof.
  revert initial w os w1.
  induction attempts as [|attempts IH]; intros initial w os w1; simpl.
  - by intros [= <- <-] _.
  - destruct (solver_solve_perimeterx solver site_url data_blob user_agent w)
      as [o w0].
    destruct (replay solver site_url data_blob user_agent attempts w0)
      as [os' w'] eqn:Hreplay.
    intros [= <- <-] [Ho Hos]%Forall_cons.
    assert (Hlast : ∀ e, last_error_from initial (map (pair name) (o :: os'))
                         = last_error_from e (map (pair name) os') →
              e = error_of o →
              (let '(r, w2, log) :=
                 retry solver name site_url data_blob user_agent attempts e w0
               in (r, w2, (name, o) :: log))
              = (inr (last_error_from initial (map (pair name) (o :: os'))),
                 w', map (pair name) (o :: os'))).
    { intros e -> _. by rewrite (IH e w0 os' w' Hreplay Hos). }
    assert (Hshift : last_error_from initial (map (pair name) (o :: os'))
                     = last_error_from (error_of o) (map (pair name) os')).
    { change (map (pair name) (o :: os'))
        with ([(name, o)] ++ map (pair name) os').
      by rewrite last_error_from_app. }
    destruct o as [result|message].
    + simpl in Ho. rewrite Ho. by apply Hlast.
    + by apply Hlast.
Qed.

Lemma replay_length solver site_url data_blob user_agent n w os w1 :
  replay solver site_url data_blob user_agent n w = (os, w1) →
  length os = n.
Proof.
  revert w os w1. induction n as [|n IH]; intros w os w1; simpl.
  - by intros [= <- <-].
  - destruct (solver_solve_perimeterx solver site_url data_blob user_agent w)
      as [o w0].
    destruct (replay solver site_url data_blob user_agent n w0)
      as [os' w'] eqn:Hreplay.
    intros [= <- <-]. simpl. f_equal. by eapply IH.
Qed.

(** *** Balances *)

Lemma collect_balances_other (items : PyDict.dict (Solver World))
    (balances : gmap string Q) w name :
  name ∉ PyDict.keys items →
  (collect_balances items balances w).1 !! name = balances !! name.
Proof.
  revert balances w.
  induction items as [|[k solver] items IH]; intros balances w Hname;
    simpl; [done|].
  apply not_elem_of_cons in Hname as [Hne Hname].
  destruct (solver_get_balance solver w) as [[amount|message] w1];
    rewrite IH by done; by rewrite lookup_insert_ne.
Qed.

Lemma collect_balances_at (before after : PyDict.dict (Solver World))
    name solver (balances : gmap string Q) w :
  name ∉ PyDict.keys after →
  (collect_balances (before ++ (name, solver) :: after) balances w).1 !! name
  = Some match (solver_get_balance solver (world_after_balances before w)).1 with
         | Returned amount => amount
         | Raised _ => (-1)%Q
         end.
Proof.
  intros Hafter. revert balances w.
  induction before as [|[k other] before IH]; intros balances w; simpl.
  - destruct (solver_get_balance solver w) as [[amount|message] w1]; simpl;
      rewrite collect_balances_other by done; by rewrite lookup_insert_eq.
  - destruct (solver_get_balance other w) as [[amount|message] w1]; simpl;
      by rewrite IH.
Qed.

Lemma collect_balances_dom (items : PyDict.dict (Solver World))
    (balances : gmap string Q) w :
  dom (fst (collect_balances items balances w))
  = dom balances ∪ list_to_set (PyDict.keys items).
Proof.
  revert balances w.
  induction items as [|[k solver] items IH]; intros balances w; simpl.
  - by rewrite (right_id_L ∅ (∪)).
  - destruct (solver_get_balance solver w) as [[amount|message] w1];
      rewrite IH, dom_insert_L;
      by rewrite (comm_L (∪) {[k]} (dom balances)), <- (assoc_L (∪)).
Qed.

End WithWorld.

End CaptchaFacts.

(** ** The claims about the solver manager *)

(** C1. [solve_perimeterx] of the manager.  Not available: an immediate
    failure and no call.  Available: the calls follow the schedule (the
    primary, then the fallback when set and distinct, each at most
    [max_retries] times); a successful result is the one returned by the
    last call made, every call before it having failed; a failed result
    means the whole schedule was tried without success and its error quotes
    the error of the last call.  In particular a primary that fails
    [max_retries] times and a fallback that then solves at once give the
    fallback's solution after exactly [max_retries] calls of the primary. *)
Theorem solve_perimeterx_contract {World : Type}
    (m : Captcha.CaptchaSolverManager World)
    (site_url : string) (data_blob user_agent : option string) (w : World)
    (result : Captcha.CaptchaSolution) (w' : World)
    (log : list Captcha.attempt) :
  Captcha.solve_perimeterx m site_url data_blob user_agent w
    = (result, w', log) →
  (Captcha.is_available m = false →
     result = Captcha.failure "CAPTCHA solving is not configured or enabled" ∧
     w' = w ∧ log = []) ∧
  (Captcha.is_available m = true →
     map fst log `prefix_of` Captcha.schedule m ∧
     (Captcha.success result = true →
        ∃ earlier name,
          log = earlier ++ [(name, Returned result)] ∧
          Captcha.all_failed earlier) ∧
     (Captcha.success result = false →
        map fst log = Captcha.schedule m ∧ Captcha.all_failed log ∧
        result = Captcha.failure
                   ("All CAPTCHA solvers failed. Last error: "
                    +:+ PyStr.format_optional
                          (Captcha.last_error_from None log)))) ∧
  (∀ fallback_name primary fallback failures w1 good w2,
     Captcha.is_available m = true →
     Captcha.fallback_provider m = Some fallback_name →
     PyStr.truthy fallback_name = true →
     fallback_name ≠ Captcha.primary_provider m →
     PyDict.get (Captcha.solvers m) (Captcha.primary_provider m)
       = Some primary →
     PyDict.get (Captcha.solvers m) fallback_name = Some fallback →
     0 < Captcha.max_retries m →
     Captcha.replay primary site_url data_blob user_agent
       (Z.to_nat (Captcha.max_retries m)) w = (failures, w1) →
     Forall Captcha.failed failures →
     Captcha.solver_solve_perimeterx fallback site_url data_blob user_agent w1
       = (Returned good, w2) →
     Captcha.success good = true →
     result = good ∧ w' = w2 ∧
     log = map (pair (Captcha.primary_provider m)) failures
           ++ [(fallback_name, Returned good)] ∧
     Z.of_nat (length failures) = Captcha.max_retries m).
Proof.
  unfold Captcha.solve_perimeterx. intros Hrun.
  split; [|split].
  - intros Hoff. rewrite Hoff in Hrun. simpl in Hrun.
    by simplify_eq.
  - intros Hon. rewrite Hon in Hrun. cbn [negb] in Hrun.
    destruct (Captcha.try_providers m (Captcha.providers_to_try m) site_url
                data_blob user_agent None w) as [[r w0] log0] eqn:Htry.
    apply CaptchaFacts.try_providers_spec in Htry as [Hprefix Hr].
    destruct r as [found|last_error]; simplify_eq.
    + destruct Hr as [Hok Hlog]. split; [done|]. split; [done|].
      intros Hfail. congruence.
    + destruct Hr as (Hall & Hfailed & ->). split; [done|]. split; [|done].
      simpl. discriminate.
  - intros fallback_name primary fallback failures w1 good w2
      Hon Hfb Htruthy Hdistinct Hprimary Hfallback Hretries
      Hreplay Hfailures Hsolve Hgood.
    rewrite Hon in Hrun. simpl in Hrun.
    unfold Captcha.providers_to_try in Hrun.
    rewrite Hfb, Htruthy, bool_decide_eq_false_2 in Hrun by done.
    simpl in Hrun. rewrite Hprimary in Hrun.
    rewrite (CaptchaFacts.retry_failing _ _ _ _ _ _ _ _ _ _ Hreplay Hfailures)
      in Hrun.
    rewrite Hfallback in Hrun.
    destruct (Z.to_nat (Captcha.max_retries m)) as [|n] eqn:Hn; [lia|].
    simpl in Hrun. rewrite Hsolve, Hgood in Hrun.
    simplify_eq. repeat split.
    apply CaptchaFacts.replay_length in Hreplay. lia.
Qed.

Lemma solve_perimeterx_contract_witness :
  Scenarios.solved "px-token" = Scenarios.solved "px-token" ∧
  3%nat = 3%nat ∧
  [ ("capsolver", Returned (Captcha.failure "ERROR_CAPTCHA_UNSOLVABLE"));
    ("capsolver", Returned (Captcha.failure "ERROR_CAPTCHA_UNSOLVABLE"));
    ("2captcha", Returned (Scenarios.solved "px-token")) ]
  = map (pair "capsolver")
      [ Returned (Captcha.failure "ERROR_CAPTCHA_UNSOLVABLE");
        Returned (Captcha.failure "ERROR_CAPTCHA_UNSOLVABLE") ]
    ++ [("2captcha", Returned (Scenarios.solved "px-token"))] ∧
  Z.of_nat 2 = 2.
Proof.
  refine (proj2 (proj2 (solve_perimeterx_contract Scenarios.fallback_manager
            "https://www.walmart.ca/en/ip/widget/1" None None 0%nat
            (Scenarios.solved "px-token") 3%nat
            [ ("capsolver", Returned (Captcha.failure "ERROR_CAPTCHA_UNSOLVABLE"));
              ("capsolver", Returned (Captcha.failure "ERROR_CAPTCHA_UNSOLVABLE"));
              ("2captcha", Returned (Scenarios.solved "px-token")) ]
            _))
          "2captcha"
          (Captcha.CapSolver Scenarios.always_failing Scenarios.balance_12_5)
          (Captcha.TwoCaptchaSolver Scenarios.always_solving
             Scenarios.unreachable)
          [ Returned (Captcha.failure "ERROR_CAPTCHA_UNSOLVABLE");
            Returned (Captcha.failure "ERROR_CAPTCHA_UNSOLVABLE") ]
          2%nat (Scenarios.solved "px-token") 3%nat
          _ _ _ _ _ _ _ _ _ _ _).
  all: try reflexivity.
  all: try discriminate.
  all: try (vm_compute; reflexivity).
  repeat constructor.
Defined.

(** C10. An available manager none of whose solvers is named by the primary
    or the fallback entry makes no attempt and returns the failure whose
    error reads [All CAPTCHA solvers failed. Last error: None]. *)
Theorem solve_perimeterx_without_matching_solver {World : Type}
    (m : Captcha.CaptchaSolverManager World)
    (site_url : string) (data_blob user_agent : option string) (w : World) :
  Captcha.is_available m = true →
  PyDict.get (Captcha.solvers m) (Captcha.primary_provider m) = None →
  (∀ fallback_name, Captcha.fallback_provider m = Some fallback_name →
     PyDict.get (Captcha.solvers m) fallback_name = None) →
  Captcha.solve_perimeterx m site_url data_blob user_agent w
  = (Captcha.failure "All CAPTCHA solvers failed. Last error: None", w, []).
Proof.
  intros Hon Hprimary Hfallback.
  unfold Captcha.solve_perimeterx, Captcha.providers_to_try.
  rewrite Hon. simpl. rewrite Hprimary.
  destruct (Captcha.fallback_provider m) as [fallback_name|]; [|done].
  specialize (Hfallback fallback_name eq_refl).
  destruct (PyStr.truthy fallback_name && _); [|done].
  simpl. by rewrite Hfallback.
Qed.

Lemma solve_perimeterx_without_matching_solver_witness :
  Captcha.solve_perimeterx Scenarios.unmatched_manager
    "https://www.walmart.ca/en/ip/widget/1" None None 0%nat
  = (Captcha.failure "All CAPTCHA solvers failed. Last error: None",
     0%nat, []).
Proof.
  apply (solve_perimeterx_without_matching_solver Scenarios.unmatched_manager).
  - reflexivity.
  - reflexivity.
  - intros fallback_name [= <-]. reflexivity.
Defined.

(** C5, as the code has it.  [get_balances] asks every solver it holds, in
    order, and maps each name to the amount its [get_balance] returned, or
    to [-1.0] when that call raised; the mapping has exactly the names of
    the solvers.  The built-in providers never raise from [get_balance]: a
    balance request of theirs that fails is reported as [0.0]. *)
Theorem get_balances_per_provider {World : Type}
    (m : Captcha.CaptchaSolverManager World) (w : World)
    (before after : PyDict.dict (Captcha.Solver World))
    (name : string) (solver : Captcha.Solver World) :
  Captcha.solvers m = before ++ (name, solver) :: after →
  NoDup (PyDict.keys (Captcha.solvers m)) →
  (Captcha.get_balances m w).1 !! name
    = Some match (Captcha.solver_get_balance solver
                    (Captcha.world_after_balances before w)).1 with
           | Returned amount => amount
           | Raised _ => (-1)%Q
           end ∧
  dom (fst (Captcha.get_balances m w))
    = list_to_set (PyDict.keys (Captcha.solvers m)) ∧
  (∀ solve (request : World → Captcha.balance_reply * World) w0,
     (request w0).1 = Captcha.TransportError →
     (Captcha.solver_get_balance (Captcha.TwoCaptchaSolver solve request) w0).1
       = Returned 0%Q ∧
     (Captcha.solver_get_balance (Captcha.CapSolver solve request) w0).1
       = Returned 0%Q).
Proof.
  intros Hsolvers Hnodup. unfold Captcha.get_balances. split; [|split].
  - rewrite Hsolvers. apply CaptchaFacts.collect_balances_at.
    rewrite Hsolvers in Hnodup. unfold PyDict.keys in *.
    rewrite map_app in Hnodup. simpl in Hnodup.
    apply NoDup_app in Hnodup as (_ & _ & Hnodup).
    by apply NoDup_cons in Hnodup as [? _].
  - rewrite CaptchaFacts.collect_balances_dom, dom_empty_L.
    by rewrite (left_id_L ∅ (∪)).
  - intros solve request w0 Hreply. simpl.
    unfold Captcha.TwoCaptchaSolver_get_balance, Captcha.CapSolver_get_balance.
    destruct (request w0) as [reply w1]. simpl in Hreply. by subst reply.
Qed.

Lemma get_balances_per_provider_witness :
  (Captcha.get_balances Scenarios.fallback_manager 0%nat).1 !! "2captcha"
    = Some 0%Q ∧
  dom (fst (Captcha.get_balances Scenarios.fallback_manager 0%nat))
    = list_to_set ["capsolver"; "2captcha"] ∧
  (∀ solve (request : nat → Captcha.balance_reply * nat) w0,
     (request w0).1 = Captcha.TransportError →
     (Captcha.solver_get_balance (Captcha.TwoCaptchaSolver solve request) w0).1
       = Returned 0%Q ∧
     (Captcha.solver_get_balance (Captcha.CapSolver solve request) w0).1
       = Returned 0%Q).
Proof.
  apply (get_balances_per_provider Scenarios.fallback_manager 0%nat
           [("capsolver",
             Captcha.CapSolver Scenarios.always_failing Scenarios.balance_12_5)]
           [] "2captcha"
           (Captcha.TwoCaptchaSolver Scenarios.always_solving
              Scenarios.unreachable)).
  - reflexivity.
  - apply (bool_decide_unpack _). vm_compute. reflexivity.
Defined.

(** C5, as stated, fails for the built-in providers: the balance request of
    2Captcha cannot be answered, and the mapping holds [0.0] for it, which
    is not negative. *)
Lemma get_balances_failed_query_not_negative :
  (Scenarios.unreachable 0%nat).1 = Captcha.TransportError ∧
  (Captcha.get_balances Scenarios.fallback_manager 0%nat).1 !! "2captcha"
    = Some 0%Q ∧
  ¬ (0 < 0)%Q.
Proof.
  split; [reflexivity|]. split; [by vm_compute|]. apply Qlt_irrefl.
Qed.

(** ** The crawl loop *)

Module CrawlFacts.
Import PyStr Crawl.

Section WithCollaborators.
Context {World ProductRecord : Type}.
Variable lower : string → string.
Implicit Types (s : Session World) (pv : PageVisit ProductRecord).

(** [_handle_captcha] and [_handle_block] leave the error counter and the
    page alone, however they end. *)
Lemma handle_captcha_frame pv s :
  consecutive_errors (snd (_handle_captcha lower pv s)) = consecutive_errors s ∧
  page (snd (_handle_captcha lower pv s)) = page s.
Proof.
  unfold _handle_captcha, inject_and_recheck, _is_blocked, try_except, bind,
    ret, raise, get, modify.
  destruct (negb (Captcha.is_available (captcha_solver s))); [done|]. simpl.
  destruct (Captcha.solve_perimeterx _ _ _ _ _) as [[result w] log]. simpl.
  destruct (negb (Captcha.success result)); [done|].
  destruct (Captcha.solve_time result); [|done]. simpl.
  destruct (Captcha.token result) as [tok|]; [|done].
  destruct (truthy tok); [|done].
  destruct (injection_raises pv); [done|]. simpl.
  by destruct (negb (page s)).
Qed.

Lemma handle_block_frame pv s :
  consecutive_errors (snd (_handle_block lower pv s)) = consecutive_errors s ∧
  page (snd (_handle_block lower pv s)) = page s.
Proof.
  unfold _handle_block, bind, get, ret.
  destruct (Captcha.is_available (captcha_solver s)); [|done].
  pose proof (handle_captcha_frame pv s) as Hframe.
  destruct (_handle_captcha lower pv s) as [[[]|e] s1]; done.
Qed.

(** Without a solver a block is never bypassed. *)
Lemma handle_block_unavailable pv s :
  Captcha.is_available (captcha_solver s) = false →
  _handle_block lower pv s = (inl false, s).
Proof. intros Hoff. unfold _handle_block, bind, get, ret. by rewrite Hoff. Qed.

(** [ensure_browser] leaves the counter alone and the page set. *)
Lemma ensure_browser_frame s :
  ∃ s0, ensure_browser s = (inl tt, s0) ∧
        consecutive_errors s0 = consecutive_errors s ∧
        captcha_solver s0 = captcha_solver s ∧
        page s0 = true.
Proof.
  unfold ensure_browser, start_browser, warmup_session, bind, get, ret, modify.
  destruct (page s) eqn:Hpage; simpl; [by eexists|].
  destruct (session_warmed_up s); simpl; [by eexists|].
  destruct (warmup_enabled (config s)); simpl; by eexists.
Qed.

(** One visit, by cases: either it ends without a record and with the
    counter one higher, the page not having loaded or showing a block; or
    the page loaded and the counter is zero. *)
Lemma scrape_product_page_cases product_url pv s r s' :
  scrape_product_page lower product_url pv s = (r, s') →
  (r = None ∧ consecutive_errors s' = consecutive_errors s + 1 ∧
   (goto_result pv ≠ Loaded ∨ has_indicator lower (content pv) = true)) ∨
  (consecutive_errors s' = 0 ∧ goto_result pv = Loaded).
Proof.
  unfold scrape_product_page.
  destruct (ensure_browser_frame s) as (s0 & Hensure & Hcount & _ & Hpage).
  unfold bind at 1. rewrite Hensure.
  unfold try_except, scrape_product_page_body, scrape_product_page_handler,
    goto, check_for_blocks, _is_blocked, bind, ret, raise, get, modify.
  simpl. destruct (goto_result pv); simpl.
  - rewrite Hpage. simpl.
    destruct (has_indicator lower (content pv)) eqn:Hblocked.
    + match goal with
      | |- context [_handle_block lower pv ?s1] =>
          pose proof (handle_block_frame pv s1) as [Hframe _];
          destruct (_handle_block lower pv s1) as [[[]|e] s2]
      end; simpl in *.
      * destruct (next_data_product pv); [|destruct (fallback_to_dom _)];
          intros [= <- <-]; right; by simpl.
      * intros [= <- <-]. left. simpl. rewrite Hframe, Hcount. by auto.
      * intros [= <- <-]. left. simpl. rewrite Hframe, Hcount. by auto.
    + destruct (next_data_product pv); [|destruct (fallback_to_dom _)];
        intros [= <- <-]; right; by simpl.
  - intros [= <- <-]. left. simpl. rewrite Hcount. by auto.
  - intros [= <- <-]. left. simpl. rewrite Hcount. by auto.
Qed.

(** A blocked page and no solver: no record, one more error. *)
Lemma blocked_visit_without_solver product_url pv s :
  Captcha.is_available (captcha_solver s) = false →
  goto_result pv = Loaded →
  has_indicator lower (content pv) = true →
  ∃ s', scrape_product_page lower product_url pv s = (None, s') ∧
        consecutive_errors s' = consecutive_errors s + 1.
Proof.
  intros Hoff Hloaded Hblocked. unfold scrape_product_page.
  destruct (ensure_browser_frame s) as (s0 & Hensure & Hcount & Hsolver & Hpage).
  unfold bind at 1. rewrite Hensure.
  unfold try_except, scrape_product_page_body, goto, check_for_blocks,
    _is_blocked, bind, ret, raise, get, modify.
  rewrite Hloaded. simpl. rewrite Hpage, Hblocked. simpl.
  rewrite handle_block_unavailable by (simpl; congruence).
  simpl. eexists. split; [done|]. simpl. by rewrite Hcount.
Qed.

(** The counter never goes below zero. *)
Lemma scrape_all_nonnegative
    (visits : list (string * PageVisit ProductRecord)) s
    (rs : list (option ProductRecord)) s' :
  scrape_all lower visits s = (rs, s') →
  0 ≤ consecutive_errors s → 0 ≤ consecutive_errors s'.
Proof.
  revert s rs s'.
  induction visits as [|[url pv] visits IH]; intros s rs s'; simpl.
  - by intros [= <- <-].
  - destruct (scrape_product_page lower url pv s) as [r s1] eqn:Hvisit.
    destruct (scrape_all lower visits s1) as [rs1 s2] eqn:Hrest.
    intros [= <- <-] Hs. eapply IH; [done|].
    apply scrape_product_page_cases in Hvisit as [(_ & -> & _)|[-> _]]; lia.
Qed.

End WithCollaborators.

End CrawlFacts.

(** ** The claims about the crawl loop *)

(** C2. Five visits of a page showing the challenge, with no solver
    configured, each return no record and raise [consecutive_errors] by
    one, up to [max_consecutive_errors = 5].  The sixth visit is not
    refused: the page is loaded, its record is returned and the counter
    goes back to zero. *)
Theorem visit_after_max_consecutive_errors_is_not_refused :
  let '(records, halted) :=
    Crawl.scrape_all Scenarios.ascii_lower
      (replicate 5 ("https://www.walmart.ca/en/ip/gadget/1"%string,
                    Scenarios.challenge_page))
      Scenarios.fresh_session in
  records = [None; None; None; None; None] ∧
  Crawl.consecutive_errors halted = 5 ∧
  Crawl.max_consecutive_errors halted = 5 ∧
  let '(record, after) :=
    Crawl.scrape_product_page Scenarios.ascii_lower
      "https://www.walmart.ca/en/ip/widget/2" Scenarios.product_page halted in
  record = Some "Widget"%string ∧
  Crawl.navigations after
    = Crawl.navigations halted ++ ["https://www.walmart.ca/en/ip/widget/2"%string] ∧
  Crawl.consecutive_errors after = 0.
Proof. by vm_compute. Qed.

(** C6. On every visit [consecutive_errors] either becomes zero or goes up
    by exactly one.  A visit that returns a record leaves it at zero, as
    does every visit whose page loads without a block indicator; it goes up
    only on a visit that returns nothing and whose page failed to load or
    showed a block.  Hence a successful visit after any run of earlier
    visits leaves the counter at zero, and the counter never becomes
    negative. *)
Theorem consecutive_errors_invariant {World ProductRecord : Type}
    (lower : string → string) (s : Crawl.Session World) :
  (∀ url (pv : Crawl.PageVisit ProductRecord) r s',
     Crawl.scrape_product_page lower url pv s = (r, s') →
     (Crawl.consecutive_errors s' = 0 ∨
      Crawl.consecutive_errors s' = Crawl.consecutive_errors s + 1) ∧
     (is_Some r → Crawl.consecutive_errors s' = 0) ∧
     (Crawl.goto_result pv = Crawl.Loaded →
      Crawl.has_indicator lower (Crawl.content pv) = false →
      Crawl.consecutive_errors s' = 0) ∧
     (Crawl.consecutive_errors s' ≠ 0 →
      r = None ∧
      Crawl.consecutive_errors s' = Crawl.consecutive_errors s + 1 ∧
      (Crawl.goto_result pv ≠ Crawl.Loaded ∨
       Crawl.has_indicator lower (Crawl.content pv) = true))) ∧
  (∀ (earlier : list (string * Crawl.PageVisit ProductRecord))
     (rs : list (option ProductRecord)) s1
     url (pv : Crawl.PageVisit ProductRecord) product s2,
     Crawl.scrape_all lower earlier s = (rs, s1) →
     Crawl.scrape_product_page lower url pv s1 = (Some product, s2) →
     Crawl.consecutive_errors s2 = 0) ∧
  (∀ (visits : list (string * Crawl.PageVisit ProductRecord))
     (rs : list (option ProductRecord)) s',
     Crawl.scrape_all lower visits s = (rs, s') →
     0 ≤ Crawl.consecutive_errors s → 0 ≤ Crawl.consecutive_errors s').
Proof.
  split; [|split].
  - intros url pv r s' Hvisit.
    apply CrawlFacts.scrape_product_page_cases in Hvisit
      as [(-> & Hup & Hwhy)|[Hzero Hloaded]].
    + split; [by right|]. split; [by intros [? [=]]|]. split; [|done].
      intros Hloaded Hclean. destruct Hwhy; congruence.
    + split; [by left|]. done.
  - intros earlier rs s1 url pv product s2 _ Hvisit.
    apply CrawlFacts.scrape_product_page_cases in Hvisit
      as [([=] & _)|[Hzero _]]; done.
  - intros visits rs s'. apply CrawlFacts.scrape_all_nonnegative.
Qed.

Lemma consecutive_errors_invariant_witness :
  Crawl.consecutive_errors
    (snd (Crawl.scrape_product_page Scenarios.ascii_lower
            "https://www.walmart.ca/en/ip/widget/2" Scenarios.product_page
            (snd (Crawl.scrape_all Scenarios.ascii_lower
                    (replicate 3 ("https://www.walmart.ca/en/ip/gadget/1"%string,
                                  Scenarios.challenge_page))
                    Scenarios.fresh_session)))) = 0.
Proof.
  apply (proj1 (proj2 (consecutive_errors_invariant Scenarios.ascii_lower
                         Scenarios.fresh_session))
           (replicate 3 ("https://www.walmart.ca/en/ip/gadget/1"%string,
                         Scenarios.challenge_page))
           [None; None; None]
           (snd (Crawl.scrape_all Scenarios.ascii_lower
                   (replicate 3 ("https://www.walmart.ca/en/ip/gadget/1"%string,
                                 Scenarios.challenge_page))
                   Scenarios.fresh_session))
           "https://www.walmart.ca/en/ip/widget/2"%string
           Scenarios.product_page "Widget"%string).
  - vm_compute. reflexivity.
  - vm_compute. reflexivity.
Defined.

(** * Further properties *)

(** ** The traversal *)

Module SitemapMore.
Import PyStr Sitemap SitemapSpec SitemapFacts.

(** What is yielded was in the document and passed both filters. *)
Lemma yield_entries_sound since url_filter max_urls entries n out n' how :
  yield_entries since url_filter max_urls entries n = (out, n', how) →
  Forall (λ e, e ∈ entries ∧ rejected_by_filter url_filter e = false ∧
               older_than_since since e = Some false) out.
Proof.
  revert n out n' how.
  induction entries as [|e es IH]; intros n out n' how; simpl.
  - intros [= <- <- <-]. constructor.
  - assert (Hweaken : ∀ out0,
      Forall (λ e0, e0 ∈ es ∧ rejected_by_filter url_filter e0 = false ∧
                    older_than_since since e0 = Some false) out0 →
      Forall (λ e0, e0 ∈ e :: es ∧ rejected_by_filter url_filter e0 = false ∧
                    older_than_since since e0 = Some false) out0).
    { intros out0 Hout0. eapply Forall_impl; [exact Hout0|].
      intros e0 (? & ? & ?). split; [by right | done]. }
    destruct (older_than_since since e) as [[]|] eqn:Hold.
    + intros H. by apply Hweaken, (IH _ _ _ _ H).
    + destruct (rejected_by_filter url_filter e) eqn:Hrej.
      { intros H. by apply Hweaken, (IH _ _ _ _ H). }
      assert (Hhead : e ∈ e :: es ∧ rejected_by_filter url_filter e = false ∧
                      older_than_since since e = Some false).
      { split; [by left | done]. }
      destruct (limit_reached max_urls (n + 1)).
      * intros [= <- <- <-]. by repeat constructor.
      * destruct (yield_entries since url_filter max_urls es (n + 1))
          as [[more m] how'] eqn:Hmore.
        intros [= <- <- <-]. constructor; [done|].
        by apply Hweaken, (IH _ _ _ _ Hmore).
    + intros [= <- <- <-]. constructor.
Qed.

Lemma sourced_later web since url_filter u out later e :
  sourced web since url_filter later e →
  sourced web since url_filter (Fetch u :: map Yield out ++ later) e.
Proof.
  intros (? & ? & v & nested & entries & Hv & ? & ?).
  split; [done|]. split; [done|]. exists v, nested, entries.
  split; [|done]. rewrite fetched_visit. by right.
Qed.

Lemma parse_loop_sound fuel web recursive since url_filter max_urls
    queue visited n trace :
  parse_loop fuel web recursive since url_filter max_urls queue visited n
    = Some trace →
  Forall (sourced web since url_filter trace) (yielded trace).
Proof.
  revert queue visited n trace.
  induction fuel as [|fuel IH]; intros [|u queue] visited n trace; simpl;
    try done.
  1,2: intros [= <-]; constructor.
  destruct (decide (u ∈ visited)); [apply IH|].
  destruct (web u) as [|nested entries] eqn:Hweb.
  - destruct (parse_loop fuel _ _ _ _ _ queue _ n) as [later|] eqn:Hlater;
      [|done].
    intros [= <-]. apply IH in Hlater.
    change (yielded (Fetch u :: later)) with (yielded later).
    eapply Forall_impl; [done|]. intros e He.
    by apply (sourced_later web since url_filter u [] later).
  - destruct (yield_entries since url_filter max_urls entries n)
      as [[out n'] how] eqn:Hout.
    apply yield_entries_sound in Hout.
    assert (Hhere : ∀ later,
      Forall (sourced web since url_filter
                (Fetch u :: map Yield out ++ later)) out).
    { intros later. eapply Forall_impl; [done|].
      intros e (He & ? & ?). split; [done|]. split; [done|].
      exists u, nested, entries. split; [|done].
      rewrite fetched_visit. by left. }
    destruct how.
    2:{ intros [= <-].
        change (yielded (Fetch u :: map Yield out))
          with (yielded (map Yield out)).
        rewrite yielded_yields.
        specialize (Hhere []). by rewrite (right_id_L [] app) in Hhere. }
    all: destruct (parse_loop fuel _ _ _ _ _ _ _ n') as [later|] eqn:Hlater;
      [|done].
    all: intros [= <-]; apply IH in Hlater.
    all: rewrite yielded_visit; apply Forall_app; split; [apply Hhere|].
    all: eapply Forall_impl; [done|]; intros e He; by apply sourced_later.
Qed.


(** A negative limit acts as the limit 1 once the counter is not negative. *)
Lemma limit_reached_negative m n :
  m < 0 → 0 < n →
  limit_reached (Some m) n = limit_reached (Some 1) n.
Proof.
  intros Hm Hn. unfold limit_reached.
  replace (m =? 0) with false by (symmetry; apply Z.eqb_neq; lia).
  replace (m <=? n) with true by (symmetry; apply Z.leb_le; lia).
  replace (1 <=? n) with true by (symmetry; apply Z.leb_le; lia).
  done.
Qed.

Lemma yield_entries_negative since url_filter m entries n :
  m < 0 → 0 ≤ n →
  yield_entries since url_filter (Some m) entries n
  = yield_entries since url_filter (Some 1) entries n.
Proof.
  intros Hm. revert n.
  induction entries as [|e es IH]; intros n Hn; cbn [yield_entries]; [done|].
  destruct (older_than_since since e) as [[]|]; [by apply IH| |done].
  destruct (rejected_by_filter url_filter e); [by apply IH|].
  rewrite (limit_reached_negative m (n + 1)) by lia.
  destruct (limit_reached (Some 1) (n + 1)); [done|].
  by rewrite IH by lia.
Qed.

Lemma yield_entries_counter_grows since url_filter max_urls entries n
    out n' how :
  yield_entries since url_filter max_urls entries n = (out, n', how) →
  n ≤ n'.
Proof.
  revert n out n' how.
  induction entries as [|e es IH]; intros n out n' how; simpl.
  - intros [= <- <- <-]. lia.
  - destruct (older_than_since since e) as [[]|].
    + apply IH.
    + destruct (rejected_by_filter url_filter e); [apply IH|].
      destruct (limit_reached max_urls (n + 1)).
      * intros [= <- <- <-]. lia.
      * destruct (yield_entries since url_filter max_urls es (n + 1))
          as [[more k] how'] eqn:Hmore.
        intros [= <- <- <-]. apply IH in Hmore. lia.
    + intros [= <- <- <-]. lia.
Qed.

Lemma parse_loop_negative fuel web recursive since url_filter m
    queue visited n :
  m < 0 → 0 ≤ n →
  parse_loop fuel web recursive since url_filter (Some m) queue visited n
  = parse_loop fuel web recursive since url_filter (Some 1) queue visited n.
Proof.
  intros Hm. revert queue visited n.
  induction fuel as [|fuel IH]; intros [|u queue] visited n Hn; simpl;
    try done.
  destruct (decide (u ∈ visited)); [by apply IH|].
  destruct (web u) as [|nested entries]; [by rewrite IH|].
  rewrite yield_entries_negative by done.
  destruct (yield_entries since url_filter (Some 1) entries n)
    as [[out n'] how] eqn:Hout.
  apply yield_entries_counter_grows in Hout.
  destruct how; rewrite ?IH by lia; done.
Qed.


End SitemapMore.

(** X1. Every entry [get_product_urls] returns is a product page in the
    sense of [SitemapEntry.is_product_page]. *)
Theorem get_product_urls_only_product_pages
    (fuel : nat) (web : Sitemap.Web) (sitemap_url : string)
    (max_urls : option Z) (since : option Sitemap.datetime)
    (entries : list Sitemap.SitemapEntry) :
  Sitemap.get_product_urls fuel web sitemap_url max_urls since
    = Some entries →
  Forall (λ e, Sitemap.is_product_page e = true) entries.
Proof.
  unfold Sitemap.get_product_urls, Sitemap.get_product_urls_events,
    Sitemap.parse_sitemap.
  destruct (Sitemap.parse_loop _ _ _ _ _ _ _ _ _) as [trace|] eqn:Htrace;
    [|done].
  intros [= <-]. apply SitemapMore.parse_loop_sound in Htrace.
  eapply Forall_impl; [done|]. intros e (Hfilter & _).
  simpl in Hfilter. by apply negb_false_iff in Hfilter.
Qed.

Lemma get_product_urls_only_product_pages_witness :
  Forall (λ e, Sitemap.is_product_page e = true)
    [ Scenarios.entry "https://shop.example/en/ip/widget/1" None;
      Scenarios.entry "https://shop.example/en/ip/gadget/2" None;
      Scenarios.entry "https://shop.example/fr/produit/truc/3" None;
      Scenarios.entry "https://shop.example/en/ip/gizmo/4" None ].
Proof.
  apply (get_product_urls_only_product_pages 10 Scenarios.shop_web
           "https://shop.example/sitemap.xml" None None).
  vm_compute. reflexivity.
Defined.

(** X2. Whatever [parse_sitemap] yields was an entry of a sitemap it
    fetched, is accepted by [url_filter] when one is given, and, when
    [since] is given and the entry is dated, is not older than [since]. *)
Theorem parse_sitemap_yields_only_filtered_entries
    (fuel : nat) (web : Sitemap.Web) (url : string) (recursive : bool)
    (since : option Sitemap.datetime) (url_filter : option (string → bool))
    (max_urls : option Z) (trace : list Sitemap.event) :
  Sitemap.parse_sitemap fuel web url recursive since url_filter max_urls
    = Some trace →
  ∀ e, e ∈ Sitemap.yielded trace →
    (∃ u nested entries,
       u ∈ Sitemap.fetched trace ∧ web u = Sitemap.Parsed nested entries ∧
       e ∈ entries) ∧
    (∀ f, url_filter = Some f → f (Sitemap.loc e) = true) ∧
    (∀ T modified, since = Some T → Sitemap.lastmod e = Some modified →
       Sitemap.datetime_lt modified T = Some false).
Proof.
  intros Htrace e He. apply SitemapMore.parse_loop_sound in Htrace.
  rewrite Forall_forall in Htrace.
  destruct (Htrace e He) as (Hfilter & Hsince & Hsource).
  split; [done|]. split.
  - intros f ->. simpl in Hfilter. by apply negb_false_iff in Hfilter.
  - intros T modified -> Hmod. unfold Sitemap.older_than_since in Hsince.
    by rewrite Hmod in Hsince.
Qed.

Lemma parse_sitemap_yields_only_filtered_entries_witness :
  let e := Scenarios.entry "https://shop.example/en/ip/gizmo/3"
             (Some (Sitemap.Naive 150)) in
  (∃ u nested entries,
     u ∈ [ "https://shop.example/index.xml"; "https://shop.example/1.xml";
           "https://shop.example/2.xml"; "https://shop.example/3.xml" ] ∧
     MoreScenarios.flaky_web u = Sitemap.Parsed nested entries ∧
     e ∈ entries) ∧
  (∀ f, Some Sitemap.product_url_filter = Some f →
     f (Sitemap.loc e) = true) ∧
  (∀ T modified, Some (Sitemap.Naive 100) = Some T →
     Sitemap.lastmod e = Some modified →
     Sitemap.datetime_lt modified T = Some false).
Proof.
  apply (parse_sitemap_yields_only_filtered_entries 10 MoreScenarios.flaky_web
           "https://shop.example/index.xml" true (Some (Sitemap.Naive 100))
           (Some Sitemap.product_url_filter) None
           [ Sitemap.Fetch "https://shop.example/index.xml";
             Sitemap.Fetch "https://shop.example/1.xml";
             Sitemap.Yield
               (Scenarios.entry "https://shop.example/en/ip/widget/1" None);
             Sitemap.Fetch "https://shop.example/2.xml";
             Sitemap.Fetch "https://shop.example/3.xml";
             Sitemap.Yield
               (Scenarios.entry "https://shop.example/en/ip/gizmo/3"
                  (Some (Sitemap.Naive 150))) ]).
  - vm_compute. reflexivity.
  - apply (list_elem_of_lookup_2 _ 1%nat). vm_compute. reflexivity.
Defined.

(** X3. A positive [max_urls] cuts the traversal short and changes nothing
    else: the bounded run is a prefix of the unbounded one and yields its
    first [max_urls] entries, all of them when there are fewer. *)
Theorem parse_sitemap_max_urls_truncates
    (fuel : nat) (web : Sitemap.Web) (url : string) (recursive : bool)
    (since : option Sitemap.datetime) (url_filter : option (string → bool))
    (k : Z) (all : list Sitemap.event) :
  0 < k →
  Sitemap.parse_sitemap fuel web url recursive since url_filter None
    = Some all →
  ∃ trace rest,
    Sitemap.parse_sitemap fuel web url recursive since url_filter (Some k)
      = Some trace ∧
    all = trace ++ rest ∧
    Sitemap.yielded trace = take (Z.to_nat k) (Sitemap.yielded all).
Proof.
  intros Hk Hall. unfold Sitemap.parse_sitemap in *.
  destruct (SitemapFacts.parse_loop_limit web recursive since url_filter k Hk
              fuel [url] ∅ 0 all) as [Hbelow Habove]; [lia | done |].
  destruct (decide (Z.of_nat (length (Sitemap.yielded all)) < k)) as [Hlt|Hge].
  - exists all, []. rewrite Hbelow by lia.
    split; [done|]. split; [by rewrite (right_id_L [] app)|].
    rewrite take_ge; [done | lia].
  - destruct Habove as (trace & rest & final & Htrace & -> & _ & Hlen); [lia|].
    exists trace, rest. split; [done|]. split; [done|].
    rewrite SitemapFacts.yielded_app, take_app_length'; [done | lia].
Qed.

Lemma parse_sitemap_max_urls_truncates_witness :
  ∃ trace rest,
    Sitemap.parse_sitemap 10 Scenarios.shop_web
      "https://shop.example/sitemap.xml" true None None (Some 9) = Some trace ∧
    [ Sitemap.Fetch "https://shop.example/sitemap.xml";
      Sitemap.Fetch "https://shop.example/a.xml";
      Sitemap.Yield
        (Scenarios.entry "https://shop.example/en/ip/widget/1" None);
      Sitemap.Yield (Scenarios.entry "https://shop.example/en/help" None);
      Sitemap.Yield
        (Scenarios.entry "https://shop.example/en/ip/gadget/2" None);
      Sitemap.Fetch "https://shop.example/b.xml";
      Sitemap.Yield
        (Scenarios.entry "https://shop.example/fr/produit/truc/3" None);
      Sitemap.Yield
        (Scenarios.entry "https://shop.example/en/ip/gizmo/4" None) ]
      = trace ++ rest ∧
    Sitemap.yielded trace
      = take (Z.to_nat 9)
          (Sitemap.yielded
             [ Sitemap.Fetch "https://shop.example/sitemap.xml";
               Sitemap.Fetch "https://shop.example/a.xml";
               Sitemap.Yield
                 (Scenarios.entry "https://shop.example/en/ip/widget/1" None);
               Sitemap.Yield
                 (Scenarios.entry "https://shop.example/en/help" None);
               Sitemap.Yield
                 (Scenarios.entry "https://shop.example/en/ip/gadget/2" None);
               Sitemap.Fetch "https://shop.example/b.xml";
               Sitemap.Yield
                 (Scenarios.entry "https://shop.example/fr/produit/truc/3" None);
               Sitemap.Yield
                 (Scenarios.entry "https://shop.example/en/ip/gizmo/4" None) ]).
Proof.
  apply (parse_sitemap_max_urls_truncates 10 Scenarios.shop_web
           "https://shop.example/sitemap.xml" true None None 9).
  - lia.
  - vm_compute. reflexivity.
Defined.

(** X4. A negative [max_urls] is truthy and already reached after the first
    yield: [parse_sitemap] and [get_product_urls] behave with it as with
    [max_urls=1]. *)
Theorem negative_max_urls_is_one
    (fuel : nat) (web : Sitemap.Web) (url : string) (recursive : bool)
    (since : option Sitemap.datetime) (url_filter : option (string → bool))
    (m : Z) :
  m < 0 →
  Sitemap.parse_sitemap fuel web url recursive since url_filter (Some m)
  = Sitemap.parse_sitemap fuel web url recursive since url_filter (Some 1) ∧
  Sitemap.get_product_urls fuel web url (Some m) since
  = Sitemap.get_product_urls fuel web url (Some 1) since.
Proof.
  intros Hm.
  unfold Sitemap.get_product_urls, Sitemap.get_product_urls_events,
    Sitemap.parse_sitemap.
  pose proof (SitemapMore.parse_loop_negative fuel web) as Hneg.
  split; [by apply Hneg|]. by rewrite (Hneg true) by lia.
Qed.

Lemma negative_max_urls_is_one_witness :
  Sitemap.parse_sitemap 10 Scenarios.shop_web
    "https://shop.example/sitemap.xml" true None None (Some (-3))
  = Sitemap.parse_sitemap 10 Scenarios.shop_web
      "https://shop.example/sitemap.xml" true None None (Some 1) ∧
  Sitemap.get_product_urls 10 Scenarios.shop_web
    "https://shop.example/sitemap.xml" (Some (-3)) None
  = Sitemap.get_product_urls 10 Scenarios.shop_web
      "https://shop.example/sitemap.xml" (Some 1) None.
Proof.
  apply (negative_max_urls_is_one 10 Scenarios.shop_web
           "https://shop.example/sitemap.xml" true None None (-3)).
  lia.
Defined.

(** X5. With [recursive=False] the sitemaps a document references are not
    followed: the traversal ends after one loop iteration and the only
    sitemap fetched is the one asked for, whatever the web. *)
Theorem non_recursive_parse_fetches_only_the_root
    (fuel : nat) (web : Sitemap.Web) (url : string)
    (since : option Sitemap.datetime) (url_filter : option (string → bool))
    (max_urls : option Z) :
  (1 ≤ fuel)%nat →
  ∃ trace,
    Sitemap.parse_sitemap fuel web url false since url_filter max_urls
      = Some trace ∧
    Sitemap.fetched trace = [url].
Proof.
  intros Hfuel. destruct fuel as [|fuel]; [lia|].
  unfold Sitemap.parse_sitemap. cbn [Sitemap.parse_loop].
  rewrite decide_False by apply not_elem_of_empty.
  assert (Hdone : ∀ visited n,
            Sitemap.parse_loop fuel web false since url_filter max_urls []
              visited n = Some []) by (intros; by destruct fuel).
  destruct (web url) as [|nested entries].
  - rewrite Hdone. simpl. by eexists.
  - destruct (Sitemap.yield_entries since url_filter max_urls entries 0)
      as [[out n] how].
    destruct how; rewrite ?Hdone; simpl; eexists; (split; [done|]).
    + by rewrite SitemapFacts.fetched_visit.
    + change (Sitemap.fetched (Sitemap.Fetch url :: map Sitemap.Yield out))
        with (url :: Sitemap.fetched (map Sitemap.Yield out)).
      by rewrite SitemapFacts.fetched_yields.
    + by rewrite SitemapFacts.fetched_visit.
Qed.

Lemma non_recursive_parse_fetches_only_the_root_witness :
  ∃ trace,
    Sitemap.parse_sitemap 1 Scenarios.cyclic_web "https://loop.example/A.xml"
      false None None None = Some trace ∧
    Sitemap.fetched trace = ["https://loop.example/A.xml"].
Proof.
  apply (non_recursive_parse_fetches_only_the_root 1 Scenarios.cyclic_web).
  lia.
Defined.



(** ** robots.txt *)

Module RobotsFacts.
Import PyStr PyText Robots.

Lemma lower_char_colon c : lower_char c = colon → c = colon.
Proof.
  destruct c as [[] [] [] [] [] [] [] []]; vm_compute; congruence.
Qed.

Lemma rstrip_cons c rest :
  rstrip (String c rest)
  = match rstrip rest with
    | EmptyString => if isspace c then EmptyString else String c EmptyString
    | kept => String c kept
    end.
Proof. done. Qed.

Lemma rstrip_cons_nonspace c rest :
  isspace c = false → rstrip (String c rest) = String c (rstrip rest).
Proof. intros Hc. rewrite rstrip_cons, Hc. by destruct (rstrip rest). Qed.

Lemma rstrip_idempotent s : rstrip (rstrip s) = rstrip s.
Proof.
  induction s as [|c rest IH]; [done|]. rewrite rstrip_cons.
  destruct (rstrip rest) as [|k kept] eqn:Hrest.
  - destruct (isspace c) eqn:Hc; [done|]. by rewrite rstrip_cons, Hc.
  - rewrite rstrip_cons, IH. done.
Qed.

Lemma lstrip_rstrip s : lstrip (rstrip s) = rstrip (lstrip s).
Proof.
  induction s as [|c rest IH]; [done|].
  rewrite rstrip_cons. simpl lstrip at 2.
  destruct (isspace c) eqn:Hc.
  - destruct (rstrip rest) as [|k kept] eqn:Hrest.
    + by rewrite <- IH.
    + rewrite <- IH. simpl. by rewrite Hc.
  - rewrite rstrip_cons.
    destruct (rstrip rest) as [|k kept]; simpl; by rewrite Hc.
Qed.

Lemma lstrip_idempotent s : lstrip (lstrip s) = lstrip s.
Proof.
  induction s as [|c rest IH]; [done|]. simpl.
  destruct (isspace c) eqn:Hc; [done|]. simpl. by rewrite Hc.
Qed.

Lemma strip_idempotent s : strip (strip s) = strip s.
Proof.
  unfold strip.
  by rewrite lstrip_rstrip, lstrip_idempotent, rstrip_idempotent.
Qed.

Lemma strip_rstrip s : strip (rstrip s) = strip s.
Proof. unfold strip. by rewrite lstrip_rstrip, rstrip_idempotent. Qed.

(** A line that passes the test of the loop has a colon to split at. *)
Lemma sitemap_line_has_colon line :
  startswith "sitemap:" (lower line) = true →
  is_Some (after_first colon line).
Proof.
  intros Hprefix.
  repeat (destruct line as [|? line]; [discriminate Hprefix|];
          cbn [after_first]; case_decide; [by eexists|];
          cbn [lower startswith] in Hprefix; case_decide; [|discriminate]).
  exfalso.
  match goal with
  | Hc : ":"%char = lower_char ?c, Hne : ?c ≠ colon |- _ =>
      apply Hne, lower_char_colon; by rewrite <- Hc
  end.
Qed.

Lemma sitemap_of_line_total line :
  ∃ found, sitemap_of_line line = Some found ∧
           ∀ url, found = Some url → stripped url.
Proof.
  unfold sitemap_of_line.
  destruct (startswith "sitemap:" (lower (strip line))) eqn:Hprefix.
  - destruct (sitemap_line_has_colon _ Hprefix) as [rest ->].
    eexists. split; [done|]. intros url [= <-]. apply strip_idempotent.
  - eexists. split; [done|]. by intros url [=].
Qed.

Lemma collect_sitemaps_total lines :
  ∃ sitemaps, collect_sitemaps lines = Some sitemaps ∧
              Forall stripped sitemaps ∧
              (length sitemaps ≤ length lines)%nat.
Proof.
  induction lines as [|line rest (sitemaps & IH & Hstripped & Hlen)]; simpl.
  - exists []. by repeat split.
  - destruct (sitemap_of_line_total line) as (found & -> & Hfound).
    rewrite IH. eexists. split; [done|].
    destruct found as [url|]; simpl.
    + split; [constructor; [by apply Hfound | done] | lia].
    + split; [done | lia].
Qed.

(** Splitting what [unlines] put together. *)
Lemma split_line sep line rest :
  free_of sep line →
  split sep (line +:+ String sep rest) = line :: split sep rest.
Proof.
  induction line as [|c line IH]; simpl.
  - intros _. by rewrite decide_True.
  - intros [Hc Hline]. rewrite decide_False by done. by rewrite IH.
Qed.

Lemma sitemap_of_sitemap_line url :
  stripped url → sitemap_of_line ("Sitemap: " +:+ url) = Some (Some url).
Proof.
  intros Hurl. unfold sitemap_of_line.
  assert (Hstrip : ∃ tail, tail = rstrip (String " " url) ∧
            strip ("Sitemap: " +:+ url)
            = String "S" (String "i" (String "t" (String "e" (String "m" (String "a" (String "p" (String ":" tail)))))))).
  { eexists. split; [done|]. unfold strip.
    change ("Sitemap: " +:+ url)
      with (String "S" (String "i" (String "t" (String "e" (String "m" (String "a" (String "p" (String ":" (String " " url))))))))).
    cbn [lstrip].
    replace (isspace "S") with false by reflexivity.
    by do 8 (rewrite rstrip_cons_nonspace by reflexivity). }
  destruct Hstrip as (tail & Htail & ->). simpl.
  f_equal. f_equal. rewrite Htail, strip_rstrip. unfold strip. simpl lstrip.
  exact Hurl.
Qed.

Lemma collect_sitemap_lines urls :
  Forall (λ url, stripped url ∧ free_of newline url) urls →
  extract_sitemaps_from_robots (sitemap_lines urls) = Some urls.
Proof.
  unfold extract_sitemaps_from_robots, sitemap_lines.
  induction urls as [|url urls IH]; [done|].
  intros [[Hstripped Hfree] Hall]%Forall_cons. cbn [map unlines].
  rewrite split_line.
  - cbn [collect_sitemaps]. rewrite sitemap_of_sitemap_line by done.
    by rewrite IH.
  - simpl. repeat split; try done.
Qed.

End RobotsFacts.

(** X7. [extract_sitemaps_from_robots] never raises: a line that passes the
    [sitemap:] test always has the colon [split(':', 1)[1]] needs.  It
    returns at most one URL per line, none of them with white space around
    it, and [discover_sitemaps] returns the same list. *)
Theorem extract_sitemaps_from_robots_never_raises (robots_content : string) :
  ∃ sitemaps,
    Robots.extract_sitemaps_from_robots robots_content = Some sitemaps ∧
    Robots.discover_sitemaps (Some robots_content) = sitemaps ∧
    Forall PyText.stripped sitemaps ∧
    (length sitemaps
     ≤ length (PyText.split Robots.newline robots_content))%nat.
Proof.
  unfold Robots.discover_sitemaps, Robots.extract_sitemaps_from_robots.
  destruct (RobotsFacts.collect_sitemaps_total
              (PyText.split Robots.newline robots_content))
    as (sitemaps & -> & Hstripped & Hlen).
  by exists sitemaps.
Qed.

(** X8. A robots.txt made of one [Sitemap: url] line per URL gives the URLs
    back, in order, provided no URL contains a newline or starts or ends
    with white space. *)
Theorem extract_sitemaps_round_trip (urls : list string) :
  Forall (λ url, PyText.stripped url ∧ PyText.free_of Robots.newline url)
    urls →
  Robots.extract_sitemaps_from_robots (Robots.sitemap_lines urls) = Some urls.
Proof. apply RobotsFacts.collect_sitemap_lines. Qed.

Lemma extract_sitemaps_round_trip_witness :
  Robots.extract_sitemaps_from_robots
    (Robots.sitemap_lines
       [ "https://www.walmart.ca/sitemap-product-1p-en.xml";
         "https://www.walmart.ca/sitemap.xml.gz" ])
  = Some [ "https://www.walmart.ca/sitemap-product-1p-en.xml";
           "https://www.walmart.ca/sitemap.xml.gz" ].
Proof.
  apply (extract_sitemaps_round_trip
           [ "https://www.walmart.ca/sitemap-product-1p-en.xml";
             "https://www.walmart.ca/sitemap.xml.gz" ]).
  repeat constructor; vm_compute; repeat split; discriminate.
Defined.

(** ** Parsing a sitemap document *)

Module SitemapXmlFacts.
Import PyStr PyText Sitemap SitemapXml.

Section WithParsers.
Variable _parse_datetime : option string → option datetime.
Variable float : option string → option Q.

Lemma sitemap_locations_stripped sitemap_tag loc_tag root :
  Forall stripped (sitemap_locations sitemap_tag loc_tag root).
Proof.
  unfold sitemap_locations.
  induction (findall sitemap_tag root) as [|sitemap rest IH]; simpl;
    [constructor|].
  destruct (loc_text (find loc_tag sitemap)); simpl; [|done].
  constructor; [apply RobotsFacts.strip_idempotent | done].
Qed.

Lemma url_entries_stripped loc_tag lastmod_tag changefreq_tag priority_tag
    url_elems entries :
  url_entries _parse_datetime float loc_tag lastmod_tag changefreq_tag
    priority_tag url_elems = Some entries →
  Forall (λ e, stripped (loc e)) entries ∧
  (length entries ≤ length url_elems)%nat.
Proof.
  revert entries.
  induction url_elems as [|url_elem rest IH]; intros entries; simpl.
  - intros [= <-]. split; [constructor | done].
  - destruct (loc_text (find loc_tag url_elem)) as [text|].
    2:{ intros H. destruct (IH _ H). split; [done | lia]. }
    destruct (find priority_tag url_elem) as [priority_elem|].
    + destruct (float (text_of priority_elem)); [|done].
      destruct (url_entries _ _ _ _ _ _ rest) as [more|]; [|done].
      intros [= <-]. destruct (IH more eq_refl) as [Hmore Hlen].
      split; [|simpl; lia].
      constructor; [apply RobotsFacts.strip_idempotent | done].
    + destruct (url_entries _ _ _ _ _ _ rest) as [more|]; [|done].
      intros [= <-]. destruct (IH more eq_refl) as [Hmore Hlen].
      split; [|simpl; lia].
      constructor; [apply RobotsFacts.strip_idempotent | done].
Qed.


End WithParsers.

End SitemapXmlFacts.

(** X9. [_parse_sitemap_xml] never returns both kinds of content: with
    nested sitemaps the root is a [sitemapindex] and there are no URL
    entries; with URL entries the root is a [urlset] that is not also a
    [sitemapindex] and there are no nested sitemaps; XML that does not
    parse gives neither. *)
Theorem parse_sitemap_xml_returns_one_kind
    (_parse_datetime : option string → option Sitemap.datetime)
    (float : option string → option Q)
    (parsed : option SitemapXml.Element)
    (sitemap_urls : list string) (url_entries : list Sitemap.SitemapEntry) :
  SitemapXml._parse_sitemap_xml _parse_datetime float parsed
    = Returned (sitemap_urls, url_entries) →
  (parsed = None → sitemap_urls = [] ∧ url_entries = []) ∧
  (sitemap_urls ≠ [] →
     url_entries = [] ∧
     ∃ root, parsed = Some root ∧
       PyStr.str_in "sitemapindex" (PyText.lower (SitemapXml.tag_of root))
         = true) ∧
  (url_entries ≠ [] →
     sitemap_urls = [] ∧
     ∃ root, parsed = Some root ∧
       PyStr.str_in "sitemapindex" (PyText.lower (SitemapXml.tag_of root))
         = false ∧
       PyStr.str_in "urlset" (PyText.lower (SitemapXml.tag_of root)) = true).
Proof.
  unfold SitemapXml._parse_sitemap_xml.
  destruct parsed as [root|].
  2:{ intros Heq; simplify_eq. by repeat split. }
  destruct (PyStr.str_in "sitemapindex" _) eqn:Hindex.
  { intros Heq; simplify_eq. split; [done|]. split; [|done].
    intros _. split; [done|]. by exists root. }
  destruct (PyStr.str_in "urlset" _) eqn:Hurlset.
  2:{ intros Heq; simplify_eq. by repeat split. }
  intros Hresult.
  assert (Hkind : sitemap_urls = []).
  { destruct (SitemapXml.url_entries _ _ _ _ _ _ (SitemapXml.findall
                (SitemapXml.sm "url") root)) as [[|e es]|]; [| |done].
    - destruct (SitemapXml.url_entries _ _ "loc" _ _ _ _); [|done].
      by simplify_eq.
    - by simplify_eq. }
  subst sitemap_urls. split; [done|]. split; [done|].
  intros _. split; [done|]. by exists root.
Qed.

Lemma parse_sitemap_xml_returns_one_kind_witness :
  (Some (SitemapXml.Elem (SitemapXml.sm "sitemapindex") None
           [ SitemapXml.Elem (SitemapXml.sm "sitemap") None
               [ SitemapXml.Elem (SitemapXml.sm "loc")
                   (Some " https://shop.example/a.xml ") [] ] ])
   = None →
   ["https://shop.example/a.xml"] = [] ∧ @nil Sitemap.SitemapEntry = []) ∧
  (["https://shop.example/a.xml"] ≠ [] →
     @nil Sitemap.SitemapEntry = [] ∧
     ∃ root,
       Some (SitemapXml.Elem (SitemapXml.sm "sitemapindex") None
               [ SitemapXml.Elem (SitemapXml.sm "sitemap") None
                   [ SitemapXml.Elem (SitemapXml.sm "loc")
                       (Some " https://shop.example/a.xml ") [] ] ])
       = Some root ∧
       PyStr.str_in "sitemapindex" (PyText.lower (SitemapXml.tag_of root))
         = true) ∧
  (@nil Sitemap.SitemapEntry ≠ [] →
     ["https://shop.example/a.xml"] = [] ∧
     ∃ root,
       Some (SitemapXml.Elem (SitemapXml.sm "sitemapindex") None
               [ SitemapXml.Elem (SitemapXml.sm "sitemap") None
                   [ SitemapXml.Elem (SitemapXml.sm "loc")
                       (Some " https://shop.example/a.xml ") [] ] ])
       = Some root ∧
       PyStr.str_in "sitemapindex" (PyText.lower (SitemapXml.tag_of root))
         = false ∧
       PyStr.str_in "urlset" (PyText.lower (SitemapXml.tag_of root)) = true).
Proof.
  apply (parse_sitemap_xml_returns_one_kind (λ _, None) (λ _, None)).
  vm_compute. reflexivity.
Defined.

(** X10. Every location [_parse_sitemap_xml] returns, of a nested sitemap
    or of a URL entry, is free of surrounding white space. *)
Theorem parse_sitemap_xml_locations_are_stripped
    (_parse_datetime : option string → option Sitemap.datetime)
    (float : option string → option Q)
    (parsed : option SitemapXml.Element)
    (sitemap_urls : list string) (url_entries : list Sitemap.SitemapEntry) :
  SitemapXml._parse_sitemap_xml _parse_datetime float parsed
    = Returned (sitemap_urls, url_entries) →
  Forall PyText.stripped sitemap_urls ∧
  Forall (λ e, PyText.stripped (Sitemap.loc e)) url_entries.
Proof.
  unfold SitemapXml._parse_sitemap_xml.
  destruct parsed as [root|].
  2:{ intros Heq; simplify_eq. split; constructor. }
  destruct (PyStr.str_in "sitemapindex" _).
  { intros Heq; simplify_eq. split; [|constructor].
    destruct (SitemapXml.sitemap_locations _ _ root) eqn:Hns.
    - apply SitemapXmlFacts.sitemap_locations_stripped.
    - rewrite <- Hns. apply SitemapXmlFacts.sitemap_locations_stripped. }
  destruct (PyStr.str_in "urlset" _).
  2:{ intros Heq; simplify_eq. split; constructor. }
  destruct (SitemapXml.url_entries _ _ _ _ _ _ (SitemapXml.findall
              (SitemapXml.sm "url") root)) as [[|e es]|] eqn:Hns; [| |done].
  - destruct (SitemapXml.url_entries _ _ "loc" _ _ _ _) as [plain|]
      eqn:Hplain; [|done].
    intros Heq; simplify_eq. split; [constructor|].
    by apply SitemapXmlFacts.url_entries_stripped in Hplain as [? _].
  - intros Heq; simplify_eq. split; [constructor|].
    by apply SitemapXmlFacts.url_entries_stripped in Hns as [? _].
Qed.

Lemma parse_sitemap_xml_locations_are_stripped_witness :
  Forall PyText.stripped ["https://shop.example/a.xml"] ∧
  Forall (λ e, PyText.stripped (Sitemap.loc e)) [].
Proof.
  apply (parse_sitemap_xml_locations_are_stripped (λ _, None) (λ _, None)
           (Some (SitemapXml.Elem (SitemapXml.sm "sitemapindex") None
                    [ SitemapXml.Elem (SitemapXml.sm "sitemap") None
                        [ SitemapXml.Elem (SitemapXml.sm "loc")
                            (Some " https://shop.example/a.xml ") [] ] ]))).
  vm_compute. reflexivity.
Defined.



(** ** Building and using the solver manager *)

Module CaptchaInitFacts.
Import PyStr PyText Captcha CaptchaInit.

Section WithServices.
Context {World : Type}.
Variable solve_service :
  string → string → Z →
  string → option string → option string → World →
  outcome CaptchaSolution * World.
Variable balance_service : string → string → World → balance_reply * World.

Lemma get_dict_set {V : Type} (d : PyDict.dict V) key v name :
  PyDict.get (dict_set d key v) name
  = if decide (key = name) then Some v else PyDict.get d name.
Proof.
  induction d as [|[k x] d IH]; simpl.
  - done.
  - destruct (decide (k = key)) as [->|Hne]; simpl.
    + by destruct (decide (key = name)).
    + rewrite IH. destruct (decide (k = name)) as [->|]; [|done].
      by rewrite decide_False.
Qed.

Lemma keys_dict_set {V : Type} (d : PyDict.dict V) key v :
  PyDict.keys (dict_set d key v)
  = if decide (key ∈ PyDict.keys d) then PyDict.keys d
    else PyDict.keys d ++ [key].
Proof.
  unfold PyDict.keys. induction d as [|[k x] d IH]; cbn [dict_set map fst].
  - destruct (decide (key ∈ [])) as [Hin|_]; [|done].
    by apply not_elem_of_nil in Hin.
  - destruct (decide (k = key)) as [->|Hne]; cbn [map fst].
    + destruct (decide (key ∈ key :: map fst d)) as [_|Hout]; [done|].
      destruct Hout. by left.
    + rewrite IH. destruct (decide (key ∈ map fst d)) as [Hin|Hout].
      * destruct (decide (key ∈ k :: map fst d)) as [_|Hout]; [done|].
        destruct Hout. by right.
      * destruct (decide (key ∈ k :: map fst d)) as [Hin|_]; [|done].
        apply elem_of_cons in Hin as [?|?]; [congruence | done].
Qed.

Lemma NoDup_dict_set {V : Type} (d : PyDict.dict V) key v :
  NoDup (PyDict.keys d) → NoDup (PyDict.keys (dict_set d key v)).
Proof.
  intros Hd. rewrite keys_dict_set. case_decide; [done|].
  apply NoDup_app. split; [done|]. split; [|apply NoDup_singleton].
  intros k Hk ->%list_elem_of_singleton. done.
Qed.

Lemma get_is_Some_keys {V : Type} (d : PyDict.dict V) name :
  is_Some (PyDict.get d name) ↔ name ∈ PyDict.keys d.
Proof.
  unfold PyDict.keys. induction d as [|[k x] d IH]; simpl.
  - split; [by intros [? ?] | by intros ?%not_elem_of_nil].
  - destruct (decide (k = name)) as [->|Hne].
    + split; [intros _; by left | by eexists].
    + rewrite IH. split; [by right|].
      intros [?|?]%elem_of_cons; [congruence | done].
Qed.

(** The factory accepts exactly the names that are a known provider once
    lowered. *)
Lemma create_accepts provider api_key timeout :
  (∃ solver, create solve_service balance_service provider api_key timeout
             = Returned solver)
  ↔ lower provider ∈ PROVIDERS.
Proof.
  unfold create, PROVIDERS.
  destruct (decide (lower provider = "2captcha")) as [->|Hne1].
  { split; [intros _; by left | by eexists]. }
  destruct (decide (lower provider = "capsolver")) as [->|Hne2].
  { split; [intros _; right; by left | by eexists]. }
  split; [by intros [? ?]|].
  intros [?|[?|?%not_elem_of_nil]%elem_of_cons]%elem_of_cons; done.
Qed.

Lemma init_solvers_step provider_name api_key timeout
    (solvers : PyDict.dict (Solver World)) :
  ∃ solvers',
    match api_key with
    | Some key =>
        if truthy key
        then
          match create solve_service balance_service provider_name key
                  timeout with
          | Returned solver => dict_set solvers provider_name solver
          | Raised _ => solvers
          end
        else solvers
    | None => solvers
    end = solvers' ∧
    (NoDup (PyDict.keys solvers) → NoDup (PyDict.keys solvers')) ∧
    ∀ name, is_Some (PyDict.get solvers' name) ↔
            is_Some (PyDict.get solvers name) ∨
            (name = provider_name ∧ usable provider_name api_key = true).
Proof.
  eexists. split; [done|]. unfold usable.
  destruct api_key as [key|]; [|by intuition].
  destruct (truthy key); [|by intuition]. simpl.
  pose proof (create_accepts provider_name key timeout) as Haccepts.
  destruct (create solve_service balance_service provider_name key timeout)
    as [solver|message].
  - split; [apply NoDup_dict_set|]. intros name. rewrite get_dict_set.
    assert (Hknown : lower provider_name ∈ PROVIDERS)
      by (apply Haccepts; by eexists).
    rewrite bool_decide_eq_true_2 by done.
    destruct (decide (provider_name = name)) as [->|Hne].
    + split; [by right | by eexists].
    + split; [by left|]. intros [?|[-> _]]; done.
  - split; [done|]. intros name.
    rewrite bool_decide_eq_false_2; [by intuition|].
    intros Hknown. apply Haccepts in Hknown as [? ?]. done.
Qed.

Lemma init_solvers_spec providers_config timeout
    (solvers : PyDict.dict (Solver World)) :
  (NoDup (PyDict.keys solvers) →
   NoDup (PyDict.keys (_init_solvers solve_service balance_service
                         providers_config timeout solvers))) ∧
  ∀ name,
    is_Some (PyDict.get (_init_solvers solve_service balance_service
                           providers_config timeout solvers) name) ↔
    is_Some (PyDict.get solvers name) ∨
    ∃ api_key, (name, api_key) ∈ providers_config ∧
               usable name api_key = true.
Proof.
  revert solvers.
  induction providers_config as [|[provider_name api_key] rest IH];
    intros solvers; cbn [_init_solvers].
  - split; [done|]. intros name. split; [by left|].
    intros [?|(? & ?%not_elem_of_nil & _)]; done.
  - destruct (init_solvers_step provider_name api_key timeout solvers)
      as (solvers' & -> & Hnodup & Hget).
    destruct (IH solvers') as [IHnodup IHget].
    split; [by intros ?%Hnodup%IHnodup|].
    intros name. rewrite IHget, Hget. split.
    + intros [[?|[-> ?]]|(key & ? & ?)].
      * by left.
      * right. exists api_key. split; [by left | done].
      * right. exists key. split; [by right | done].
    + intros [?|(key & [[= -> ->]|?]%elem_of_cons & ?)].
      * left. by left.
      * left. by right.
      * right. by exists key.
Qed.

End WithServices.

End CaptchaInitFacts.

(** X12. A call of the manager's [solve_perimeterx] makes at most
    [max_retries] attempts per provider tried and tries at most two
    providers; without a fallback that is set, non-empty and different from
    the primary it makes at most [max_retries] attempts. *)
Theorem solve_perimeterx_attempts_bounded {World : Type}
    (m : Captcha.CaptchaSolverManager World)
    (site_url : string) (data_blob user_agent : option string) (w : World)
    (result : Captcha.CaptchaSolution) (w' : World)
    (log : list Captcha.attempt) :
  Captcha.solve_perimeterx m site_url data_blob user_agent w
    = (result, w', log) →
  (length log ≤ 2 * Z.to_nat (Captcha.max_retries m))%nat ∧
  (Captcha.providers_to_try m = [Captcha.primary_provider m] →
   (length log ≤ Z.to_nat (Captcha.max_retries m))%nat).
Proof.
  unfold Captcha.solve_perimeterx.
  destruct (negb (Captcha.is_available m)).
  { intros Heq; simplify_eq. simpl. split; intros; lia. }
  destruct (Captcha.try_providers m (Captcha.providers_to_try m) site_url
              data_blob user_agent None w) as [[r w0] log0] eqn:Htry.
  apply CaptchaFacts.try_providers_spec in Htry as [[rest Hprefix] _].
  intros Hresult.
  assert (log0 = log) as -> by (destruct r; by simplify_eq).
  apply (f_equal length) in Hprefix.
  rewrite length_app, length_map in Hprefix.
  assert (Hsched : ∀ providers,
            (length (Captcha.schedule_of m providers)
             ≤ length providers * Z.to_nat (Captcha.max_retries m))%nat).
  { intros providers. unfold Captcha.schedule_of.
    induction providers as [|p ps IH]; simpl; [lia|].
    rewrite length_app.
    destruct (PyDict.get (Captcha.solvers m) p);
      rewrite ?length_replicate; simpl; lia. }
  split.
  - specialize (Hsched (Captcha.providers_to_try m)).
    assert (length (Captcha.providers_to_try m) ≤ 2)%nat.
    { unfold Captcha.providers_to_try.
      destruct (Captcha.fallback_provider m) as [fb|]; simpl; [|lia].
      destruct (PyStr.truthy fb && _); simpl; lia. }
    pose proof (Nat.mul_le_mono_r _ _ (Z.to_nat (Captcha.max_retries m)) H).
    unfold Captcha.attempt in *. lia.
  - intros Hone. specialize (Hsched (Captcha.providers_to_try m)).
    rewrite Hone in Hsched, Hprefix. cbn [length] in Hsched.
    unfold Captcha.attempt in *. lia.
Qed.

Lemma solve_perimeterx_attempts_bounded_witness :
  (length
     [ ("capsolver", Returned (Captcha.failure "ERROR_CAPTCHA_UNSOLVABLE"));
       ("capsolver", Returned (Captcha.failure "ERROR_CAPTCHA_UNSOLVABLE"));
       ("2captcha", Returned (Scenarios.solved "px-token")) ]
   ≤ 2 * Z.to_nat (Captcha.max_retries Scenarios.fallback_manager))%nat ∧
  (Captcha.providers_to_try Scenarios.fallback_manager
     = [Captcha.primary_provider Scenarios.fallback_manager] →
   (length
      [ ("capsolver", Returned (Captcha.failure "ERROR_CAPTCHA_UNSOLVABLE"));
        ("capsolver", Returned (Captcha.failure "ERROR_CAPTCHA_UNSOLVABLE"));
        ("2captcha", Returned (Scenarios.solved "px-token")) ]
    ≤ Z.to_nat (Captcha.max_retries Scenarios.fallback_manager))%nat).
Proof.
  apply (solve_perimeterx_attempts_bounded Scenarios.fallback_manager
           "https://www.walmart.ca/en/ip/widget/1" None None 0%nat
           (Scenarios.solved "px-token") 3%nat).
  vm_compute. reflexivity.
Defined.

(** X13. With [max_retries] zero or negative [range(self.max_retries)] is
    empty: an available manager calls no solver and returns the failure
    whose error ends in [Last error: None]. *)
Theorem solve_perimeterx_without_retries {World : Type}
    (m : Captcha.CaptchaSolverManager World)
    (site_url : string) (data_blob user_agent : option string) (w : World) :
  Captcha.is_available m = true →
  Captcha.max_retries m ≤ 0 →
  Captcha.solve_perimeterx m site_url data_blob user_agent w
  = (Captcha.failure "All CAPTCHA solvers failed. Last error: None", w, []).
Proof.
  intros Hon Hretries. unfold Captcha.solve_perimeterx. rewrite Hon.
  cbn [negb].
  assert (Hnone : ∀ providers last_error,
            Captcha.try_providers m providers site_url data_blob user_agent
              last_error w = (inr last_error, w, [])).
  { induction providers as [|p ps IH]; intros last_error; simpl; [done|].
    destruct (PyDict.get (Captcha.solvers m) p); [|apply IH].
    replace (Z.to_nat (Captcha.max_retries m)) with O by lia. simpl.
    by rewrite IH. }
  by rewrite Hnone.
Qed.

Lemma solve_perimeterx_without_retries_witness :
  Captcha.solve_perimeterx
    {| Captcha.enabled := true;
       Captcha.primary_provider := "2captcha";
       Captcha.fallback_provider := None;
       Captcha.timeout := 120;
       Captcha.max_retries := 0;
       Captcha.solvers :=
         [ ("2captcha",
            Captcha.TwoCaptchaSolver Scenarios.always_solving
              Scenarios.unreachable) ] |}
    "https://www.walmart.ca/en/ip/widget/1" None None 0%nat
  = (Captcha.failure "All CAPTCHA solvers failed. Last error: None",
     0%nat, []).
Proof.
  apply (solve_perimeterx_without_retries
           {| Captcha.enabled := true;
              Captcha.primary_provider := "2captcha";
              Captcha.fallback_provider := None;
              Captcha.timeout := 120;
              Captcha.max_retries := 0;
              Captcha.solvers :=
                [ ("2captcha",
                   Captcha.TwoCaptchaSolver Scenarios.always_solving
                     Scenarios.unreachable) ] |}).
  - reflexivity.
  - simpl. lia.
Defined.

(** X14. The manager [__init__] builds holds a solver under a name exactly
    when it is enabled and the configuration has that name with a non-empty
    API key and a provider the factory knows (compared in lower case); its
    solver names are distinct; and it is available exactly when it is
    enabled and some configured provider is of that kind. *)
Theorem manager_init_solvers {World : Type}
    (solve_service :
       string → string → Z →
       string → option string → option string → World →
       outcome Captcha.CaptchaSolution * World)
    (balance_service : string → string → World → Captcha.balance_reply * World)
    (config : CaptchaInit.Config) :
  let m := CaptchaInit.init solve_service balance_service config in
  NoDup (PyDict.keys (Captcha.solvers m)) ∧
  (∀ name,
     is_Some (PyDict.get (Captcha.solvers m) name) ↔
     CaptchaInit.cfg_enabled config = Some true ∧
     ∃ api_key,
       (name, api_key) ∈ default [] (CaptchaInit.cfg_providers config) ∧
       CaptchaInit.usable name api_key = true) ∧
  (Captcha.is_available m = true ↔
   CaptchaInit.cfg_enabled config = Some true ∧
   ∃ name api_key,
     (name, api_key) ∈ default [] (CaptchaInit.cfg_providers config) ∧
     CaptchaInit.usable name api_key = true).
Proof.
  intros m.
  assert (Hkeys : NoDup (PyDict.keys (Captcha.solvers m)) ∧
    ∀ name,
      is_Some (PyDict.get (Captcha.solvers m) name) ↔
      CaptchaInit.cfg_enabled config = Some true ∧
      ∃ api_key,
        (name, api_key) ∈ default [] (CaptchaInit.cfg_providers config) ∧
        CaptchaInit.usable name api_key = true).
  { subst m. unfold CaptchaInit.init. simpl.
    destruct (CaptchaInit.cfg_enabled config) as [[]|]; simpl.
    - destruct (CaptchaInitFacts.init_solvers_spec solve_service
                  balance_service
                  (default [] (CaptchaInit.cfg_providers config))
                  (default 120 (CaptchaInit.cfg_timeout config)) [])
        as [Hnodup Hget].
      split; [apply Hnodup; constructor|].
      intros name. rewrite Hget. split.
      + intros [[? [=]]|?]. done.
      + intros [_ ?]. by right.
    - split; [constructor|]. intros name.
      split; [by intros [? [=]] | by intros [[=] _]].
    - split; [constructor|]. intros name.
      split; [by intros [? [=]] | by intros [[=] _]]. }
  destruct Hkeys as [Hnodup Hget]. split; [done|]. split; [done|].
  unfold Captcha.is_available.
  assert (Hsome : (0 <? Z.of_nat (length (Captcha.solvers m))) = true ↔
                  ∃ name, is_Some (PyDict.get (Captcha.solvers m) name)).
  { destruct (Captcha.solvers m) as [|[k solver] rest]; simpl.
    - split; [done | by intros [? [? [=]]]].
    - split; [|intros _; apply Z.ltb_lt; lia].
      intros _. exists k. rewrite decide_True by done. by eexists. }
  rewrite andb_true_iff, Hsome. split.
  - intros [_ [name Hname]]. apply Hget in Hname as [? [key ?]].
    split; [done|]. by exists name, key.
  - intros [Hon (name & key & Hin)].
    assert (Hname : is_Some (PyDict.get (Captcha.solvers m) name)).
    { apply Hget. split; [done|]. by exists key. }
    split; [|by exists name].
    subst m. unfold CaptchaInit.init. simpl. by rewrite Hon.
Qed.

(** X15. The factory compares provider names in lower case, but the manager
    files the solver under the name as configured and looks the primary and
    the fallback up as written: a manager all of whose usable providers are
    configured under names other than these two strings is available, calls
    no solver and fails with [Last error: None]. *)
Theorem manager_init_names_are_case_sensitive {World : Type}
    (solve_service :
       string → string → Z →
       string → option string → option string → World →
       outcome Captcha.CaptchaSolution * World)
    (balance_service : string → string → World → Captcha.balance_reply * World)
    (config : CaptchaInit.Config)
    (site_url : string) (data_blob user_agent : option string) (w : World)
    (configured : string) (api_key : option string) :
  CaptchaInit.cfg_enabled config = Some true →
  (configured, api_key) ∈ default [] (CaptchaInit.cfg_providers config) →
  CaptchaInit.usable configured api_key = true →
  (∀ name key,
     (name, key) ∈ default [] (CaptchaInit.cfg_providers config) →
     name ≠ default "capsolver"%string
              (CaptchaInit.cfg_primary_provider config) ∧
     CaptchaInit.cfg_fallback_provider config ≠ Some name) →
  let m := CaptchaInit.init solve_service balance_service config in
  Captcha.is_available m = true ∧
  Captcha.solve_perimeterx m site_url data_blob user_agent w
  = (Captcha.failure "All CAPTCHA solvers failed. Last error: None", w, []).
Proof.
  intros Hon Hin Husable Hnames m.
  assert (Hget : ∀ name,
    is_Some (PyDict.get (Captcha.solvers m) name) →
    ∃ key, (name, key) ∈ default [] (CaptchaInit.cfg_providers config)).
  { subst m. unfold CaptchaInit.init. simpl. rewrite Hon. simpl.
    intros name Hname.
    apply (proj2 (CaptchaInitFacts.init_solvers_spec solve_service
                    balance_service _ _ [])) in Hname
      as [[? [=]]|(key & ? & _)].
    by exists key. }
  assert (Havailable : Captcha.is_available m = true).
  { subst m. unfold Captcha.is_available, CaptchaInit.init. simpl.
    rewrite Hon. simpl.
    destruct (CaptchaInitFacts.init_solvers_spec solve_service balance_service
                (default [] (CaptchaInit.cfg_providers config))
                (default 120 (CaptchaInit.cfg_timeout config)) [])
      as [_ Hspec].
    destruct (proj2 (Hspec configured)) as [solver Hsolver].
    { right. by exists api_key. }
    destruct (CaptchaInit._init_solvers _ _ _ _ _); [done|].
    apply Z.ltb_lt. simpl. lia. }
  split; [done|].
  assert (Hmiss : ∀ name,
    (∀ key, (name, key) ∈ default [] (CaptchaInit.cfg_providers config) →
            False) →
    PyDict.get (Captcha.solvers m) name = None).
  { intros name Hname.
    destruct (PyDict.get (Captcha.solvers m) name) eqn:Hfound; [|done].
    destruct (Hget name) as [key Hkey]; [by eexists|].
    destruct (Hname key Hkey). }
  unfold Captcha.solve_perimeterx, Captcha.providers_to_try.
  rewrite Havailable. cbn [negb Captcha.try_providers].
  rewrite (Hmiss (Captcha.primary_provider m)).
  2:{ intros key Hkey. by destruct (Hnames _ _ Hkey). }
  destruct (Captcha.fallback_provider m) as [fb|] eqn:Hfb; [|done].
  destruct (PyStr.truthy fb && _); [|done].
  cbn [Captcha.try_providers]. rewrite (Hmiss fb); [done|].
  intros key Hkey. by destruct (Hnames _ _ Hkey) as [_ []].
Qed.

Lemma manager_init_names_are_case_sensitive_witness :
  let m :=
    CaptchaInit.init (λ _ _ _, Scenarios.always_solving)
      (λ _ _, Scenarios.unreachable)
      {| CaptchaInit.cfg_enabled := Some true;
         CaptchaInit.cfg_primary_provider := Some "capsolver"%string;
         CaptchaInit.cfg_fallback_provider := None;
         CaptchaInit.cfg_timeout := None;
         CaptchaInit.cfg_max_retries := None;
         CaptchaInit.cfg_providers :=
           Some [("CapSolver"%string, Some "key-123"%string)] |} in
  Captcha.is_available m = true ∧
  Captcha.solve_perimeterx m "https://www.walmart.ca/en/ip/widget/1" None
    None 0%nat
  = (Captcha.failure "All CAPTCHA solvers failed. Last error: None",
     0%nat, []).
Proof.
  apply (manager_init_names_are_case_sensitive
           (λ _ _ _, Scenarios.always_solving) (λ _ _, Scenarios.unreachable)
           {| CaptchaInit.cfg_enabled := Some true;
              CaptchaInit.cfg_primary_provider := Some "capsolver"%string;
              CaptchaInit.cfg_fallback_provider := None;
              CaptchaInit.cfg_timeout := None;
              CaptchaInit.cfg_max_retries := None;
              CaptchaInit.cfg_providers :=
                Some [("CapSolver"%string, Some "key-123"%string)] |}
           "https://www.walmart.ca/en/ip/widget/1" None None 0%nat
           "CapSolver" (Some "key-123"%string)).
  - reflexivity.
  - apply elem_of_cons. by left.
  - vm_compute. reflexivity.
  - intros name key Hin. apply list_elem_of_singleton in Hin.
    injection Hin as -> ->. split; discriminate.
Defined.

(** ** The visits *)

Module CrawlMore.
Import PyStr Crawl CrawlSpec.

Section WithCollaborators.
Context {World ProductRecord : Type}.
Variable lower : string → string.
Implicit Types (s : Session World) (pv : PageVisit ProductRecord).

(** What [_handle_captcha] can change: the world of the solver and the two
    solve counters. *)
Lemma handle_captcha_effects pv s :
  let s1 := snd (_handle_captcha lower pv s) in
  same_setup s s1 ∧ page s1 = page s ∧
  session_warmed_up s1 = session_warmed_up s ∧
  consecutive_errors s1 = consecutive_errors s ∧
  stats_errors s1 = stats_errors s ∧
  navigations s1 = navigations s ∧
  solve_counters_step s s1.
Proof.
  unfold same_setup, solve_counters_step.
  unfold _handle_captcha, inject_and_recheck, _is_blocked, try_except, bind,
    ret, raise, get, modify.
  destruct (negb (Captcha.is_available (captcha_solver s)));
    [simpl; repeat split; lia|]. simpl.
  destruct (Captcha.solve_perimeterx _ _ _ _ _) as [[result w] log]. simpl.
  destruct (negb (Captcha.success result)); [simpl; repeat split; lia|].
  destruct (Captcha.solve_time result); [|simpl; repeat split; lia]. simpl.
  destruct (Captcha.token result) as [tok|]; [|simpl; repeat split; lia].
  destruct (truthy tok); [|simpl; repeat split; lia].
  destruct (injection_raises pv); [simpl; repeat split; lia|]. simpl.
  destruct (negb (page s)); simpl; repeat split; lia.
Qed.

Lemma handle_block_effects pv s :
  let s1 := snd (_handle_block lower pv s) in
  same_setup s s1 ∧ page s1 = page s ∧
  session_warmed_up s1 = session_warmed_up s ∧
  consecutive_errors s1 = consecutive_errors s ∧
  stats_errors s1 = stats_errors s ∧
  navigations s1 = navigations s ∧
  solve_counters_step s s1.
Proof.
  unfold _handle_block, bind, get, ret.
  destruct (Captcha.is_available (captcha_solver s)).
  - pose proof (handle_captcha_effects pv s) as Heffects.
    destruct (_handle_captcha lower pv s) as [[[]|e] s1]; exact Heffects.
  - unfold same_setup, solve_counters_step. simpl. repeat split; lia.
Qed.

(** When [_handle_block] reports a bypass. *)
Lemma handle_block_bypassed pv s s1 :
  page s = true →
  _handle_block lower pv s = (inl true, s1) →
  Captcha.is_available (captcha_solver s) = true ∧
  ∃ result log tok,
    Captcha.solve_perimeterx (captcha_solver s) (page_url pv) (px_data pv)
      (Some (user_agent (config s))) (solver_world s)
      = (result, solver_world s1, log) ∧
    Captcha.success result = true ∧
    is_Some (Captcha.solve_time result) ∧
    Captcha.token result = Some tok ∧ truthy tok = true ∧
    injection_raises pv = false ∧
    has_indicator lower (content_after_reload pv) = false ∧
    captcha_solve_attempts s1 = captcha_solve_attempts s + 1 ∧
    captcha_solve_successes s1 = captcha_solve_successes s + 1.
Proof.
  intros Hpage.
  unfold _handle_block, _handle_captcha, inject_and_recheck, _is_blocked,
    try_except, bind, ret, raise, get, modify.
  destruct (Captcha.is_available (captcha_solver s)) eqn:Hon;
    [|by simpl; intros [=]].
  simpl. rewrite Hon. simpl.
  destruct (Captcha.solve_perimeterx _ _ _ _ _) as [[result w] log] eqn:Hsolve.
  simpl.
  destruct (Captcha.success result) eqn:Hok; [|by simpl; intros [=]]. simpl.
  destruct (Captcha.solve_time result) eqn:Htime; [|by simpl; intros [=]].
  simpl.
  destruct (Captcha.token result) as [tok|] eqn:Htok;
    [|by simpl; intros [=]].
  destruct (truthy tok) eqn:Htruthy; [|by simpl; intros [=]].
  destruct (injection_raises pv) eqn:Hinject; [by simpl; intros [=]|]. simpl.
  rewrite Hpage. simpl.
  destruct (has_indicator lower (content_after_reload pv)) eqn:Hafter;
    [by simpl; intros [=]|]. simpl.
  intros [= <-]. simpl. split; [done|]. exists result, log, tok.
  repeat split; try done.
Qed.

(** [warmup_session] never raises and ends warmed up. *)
Lemma warmup_session_effects s :
  ∃ s1, warmup_session s = (inl tt, s1) ∧
        session_warmed_up s1 = true ∧ same_setup s s1 ∧
        page s1 = page s ∧
        consecutive_errors s1 = consecutive_errors s ∧
        stats_errors s1 = stats_errors s ∧
        solver_untouched s s1 ∧
        (session_warmed_up s = true → s1 = s).
Proof.
  unfold warmup_session, bind, get, ret, modify, same_setup, solver_untouched.
  destruct (session_warmed_up s) eqn:Hwarm; simpl.
  { eexists. by repeat split. }
  destruct (warmup_enabled (config s)); simpl; eexists; by repeat split.
Qed.

Lemma ensure_browser_effects s :
  ∃ s0, ensure_browser s = (inl tt, s0) ∧
        page s0 = true ∧ same_setup s s0 ∧
        consecutive_errors s0 = consecutive_errors s ∧
        stats_errors s0 = stats_errors s ∧
        solver_untouched s s0 ∧
        (page s = true → s0 = s).
Proof.
  unfold ensure_browser, start_browser, bind, get, ret, modify.
  destruct (page s) eqn:Hpage; simpl.
  { exists s. unfold same_setup, solver_untouched. by repeat split. }
  destruct (warmup_session_effects (set_page true s))
    as (s1 & -> & _ & Hsetup & Hpage1 & Hcount & Hstats & Hsolver & _).
  exists s1. unfold same_setup, solver_untouched in *. simpl in *.
  destruct Hsetup as (? & ? & ?), Hsolver as (? & ? & ?).
  by repeat split.
Qed.

(** Closes the conjuncts of [visit_effects] once the visit is computed. *)
Local Ltac close_effects :=
  simpl in *; split_and!;
  first
    [ congruence | lia
    | left; split_and!; first [congruence | lia]
    | right; split_and!; first [congruence | lia]
    | intros [?|?]; first [congruence | split_and!; first [congruence | lia]] ].

(** Everything one visit does to the session. *)
Lemma visit_effects product_url pv s r s' :
  scrape_product_page lower product_url pv s = (r, s') →
  ∃ s0,
    ensure_browser s = (inl tt, s0) ∧
    same_setup s s' ∧ page s' = true ∧
    session_warmed_up s' = session_warmed_up s0 ∧
    navigations s' = navigations s0 ++ [product_url] ∧
    solve_counters_step s s' ∧
    ((r = None ∧ stats_errors s' = stats_errors s + 1 ∧
      consecutive_errors s' = consecutive_errors s + 1) ∨
     (stats_errors s' = stats_errors s ∧ consecutive_errors s' = 0)) ∧
    (goto_result pv ≠ Loaded ∨ has_indicator lower (content pv) = false →
     solver_untouched s s').
Proof.
  unfold scrape_product_page.
  destruct (ensure_browser_effects s)
    as (s0 & Hensure & Hpage & (Hc & Hm & Hx) & Hcount & Hstats &
        (Hw & Ha & Hs) & _).
  intros Hvisit. exists s0. split; [done|]. revert Hvisit.
  unfold bind at 1. rewrite Hensure.
  unfold try_except, scrape_product_page_body, scrape_product_page_handler,
    goto, check_for_blocks, _is_blocked, bind, ret, raise, get, modify.
  unfold same_setup, solve_counters_step, solver_untouched.
  simpl. destruct (goto_result pv); simpl.
  - rewrite Hpage. simpl.
    destruct (has_indicator lower (content pv)) eqn:Hblocked.
    + match goal with
      | |- context [_handle_block lower pv ?s1] =>
          pose proof (handle_block_effects pv s1)
            as ((Hc1 & Hm1 & Hx1) & Hp1 & Hwu1 & Hce1 & Hse1 & Hn1 & Hstep);
          destruct (_handle_block lower pv s1) as [[[]|e] s2]
      end; unfold solve_counters_step in Hstep; simpl in *.
      * destruct (next_data_product pv); [|destruct (fallback_to_dom _)];
          intros [= <- <-]; close_effects.
      * intros [= <- <-]. close_effects.
      * intros [= <- <-]. close_effects.
    + destruct (next_data_product pv); [|destruct (fallback_to_dom _)];
        intros [= <- <-]; close_effects.
  - intros [= <- <-]. close_effects.
  - intros [= <- <-]. close_effects.
Qed.

(** A record out of a page that showed a block indicator. *)
Lemma blocked_visit_with_record product_url pv s record s' :
  scrape_product_page lower product_url pv s = (Some record, s') →
  has_indicator lower (content pv) = true →
  Captcha.is_available (captcha_solver s) = true ∧
  ∃ result log tok,
    Captcha.solve_perimeterx (captcha_solver s) (page_url pv) (px_data pv)
      (Some (user_agent (config s))) (solver_world s)
      = (result, solver_world s', log) ∧
    Captcha.success result = true ∧
    is_Some (Captcha.solve_time result) ∧
    Captcha.token result = Some tok ∧ truthy tok = true ∧
    injection_raises pv = false ∧
    has_indicator lower (content_after_reload pv) = false ∧
    captcha_solve_attempts s' = captcha_solve_attempts s + 1 ∧
    captcha_solve_successes s' = captcha_solve_successes s + 1.
Proof.
  unfold scrape_product_page.
  destruct (ensure_browser_effects s)
    as (s0 & Hensure & Hpage & (Hc & Hm & Hx) & Hcount & Hstats &
        (Hw & Ha & Hs) & _).
  intros Hvisit Hblocked. revert Hvisit.
  unfold bind at 1. rewrite Hensure.
  unfold try_except, scrape_product_page_body, scrape_product_page_handler,
    goto, check_for_blocks, _is_blocked, bind, ret, raise, get, modify.
  simpl. destruct (goto_result pv); simpl; [|by intros [=]..].
  rewrite Hpage, Hblocked. simpl.
  match goal with
  | |- context [_handle_block lower pv ?s1] =>
      pose proof (handle_block_bypassed pv s1) as Hbypass;
      destruct (_handle_block lower pv s1) as [[[]|e] s2]
  end; simpl; [|by intros [=]..].
  destruct (Hbypass s2 Hpage eq_refl)
    as (Hon & result & log & tok & Hsolve & Hrest).
  simpl in Hon, Hsolve, Hrest.
  rewrite Hm in Hon. rewrite Hm, Hc, Hw in Hsolve. rewrite Ha, Hs in Hrest.
  intros Hvisit. split; [done|]. exists result, log, tok.
  assert (solver_world s' = solver_world s2
          ∧ captcha_solve_attempts s' = captcha_solve_attempts s2
          ∧ captcha_solve_successes s' = captcha_solve_successes s2)
    as (-> & -> & ->); [|done].
  revert Hvisit.
  destruct (next_data_product pv); [|destruct (fallback_to_dom _)];
    intros [= _ <-]; done.
Qed.

(** A run of visits: the set-up and the counters. *)
Lemma scrape_all_counters
    (visits : list (string * PageVisit ProductRecord)) s
    (rs : list (option ProductRecord)) s' :
  scrape_all lower visits s = (rs, s') →
  same_setup s s' ∧ length rs = length visits ∧
  captcha_solve_attempts s ≤ captcha_solve_attempts s'
    ≤ captcha_solve_attempts s + Z.of_nat (length visits) ∧
  captcha_solve_successes s ≤ captcha_solve_successes s' ∧
  captcha_solve_successes s' - captcha_solve_successes s
    ≤ captcha_solve_attempts s' - captcha_solve_attempts s ∧
  stats_errors s ≤ stats_errors s'
    ≤ stats_errors s + Z.of_nat (length visits) ∧
  (0 ≤ consecutive_errors s ≤ stats_errors s →
   0 ≤ consecutive_errors s' ≤ stats_errors s').
Proof.
  revert s rs s'. induction visits as [|[url pv] rest IH]; intros s rs s'.
  { intros [= <- <-]. unfold same_setup. simpl. split_and!; try done; lia. }
  simpl. destruct (scrape_product_page lower url pv s) as [r s1] eqn:Hvisit.
  destruct (scrape_all lower rest s1) as [rs' s2] eqn:Hrest.
  intros [= <- <-]. apply IH in Hrest. apply visit_effects in Hvisit.
  destruct Hvisit as (s0 & _ & (Hc & Hm & Hx) & _ & _ & _ & Hstep & Herr & _).
  destruct Hrest as ((Hc' & Hm' & Hx') & Hlen & Hatt & Hsucc & Hdiff &
                     Hstats & Hcons).
  unfold same_setup, solve_counters_step in *. simpl length.
  split_and!; try congruence; try lia.
Qed.

(** A run of visits on a started browser: the page loads. *)
Lemma scrape_all_navigations
    (visits : list (string * PageVisit ProductRecord)) s
    (rs : list (option ProductRecord)) s' :
  scrape_all lower visits s = (rs, s') →
  page s = true →
  page s' = true ∧ navigations s' = navigations s ++ map fst visits.
Proof.
  revert s rs s'. induction visits as [|[url pv] rest IH]; intros s rs s'.
  { intros [= <- <-] Hpage. simpl. by rewrite (right_id_L [] app). }
  simpl. destruct (scrape_product_page lower url pv s) as [r s1] eqn:Hvisit.
  destruct (scrape_all lower rest s1) as [rs' s2] eqn:Hrest.
  intros [= <- <-] Hpage. apply visit_effects in Hvisit.
  destruct Hvisit as (s0 & Hensure & _ & Hpage1 & _ & Hnav & _).
  destruct (ensure_browser_effects s) as (s0' & Hensure' & _ & _ & _ & _ & _ & Hsame).
  rewrite Hensure' in Hensure. injection Hensure as <-.
  rewrite (Hsame Hpage) in Hnav.
  destruct (IH _ _ _ Hrest Hpage1) as (Hpage2 & Hnav2).
  split; [done|]. rewrite Hnav2, Hnav. by rewrite <- (assoc_L app).
Qed.

End WithCollaborators.

End CrawlMore.

(** X16. The first visit of a newly built scraper starts the browser, loads
    the warm-up pages when the warm-up is enabled, and then the product
    page; the next visit loads its product page and nothing else. *)
Theorem warmup_happens_once {World ProductRecord : Type}
    (lower : string → string) (cfg : Crawl.Config)
    (m : Captcha.CaptchaSolverManager World) (w : World)
    (url1 url2 : string) (pv1 pv2 : Crawl.PageVisit ProductRecord) :
  let s1 := snd (Crawl.scrape_product_page lower url1 pv1 (Crawl.init cfg m w)) in
  let s2 := snd (Crawl.scrape_product_page lower url2 pv2 s1) in
  Crawl.navigations s1
    = (if Crawl.warmup_enabled cfg
       then map (λ path, if PyStr.startswith "/" path
                         then Crawl.base_url cfg +:+ path else path)
              (Crawl.warmup_pages cfg)
       else []) ++ [url1] ∧
  Crawl.session_warmed_up s1 = true ∧
  Crawl.navigations s2 = Crawl.navigations s1 ++ [url2].
Proof.
  intros s1 s2.
  destruct (Crawl.scrape_product_page lower url1 pv1 (Crawl.init cfg m w))
    as [r1 s1'] eqn:Hfirst.
  destruct (Crawl.scrape_product_page lower url2 pv2 s1) as [r2 s2'] eqn:Hnext.
  subst s1 s2. simpl in *.
  apply CrawlMore.visit_effects in Hfirst
    as (s0 & Hensure & _ & Hpage & Hwarm & Hnav & _).
  apply CrawlMore.visit_effects in Hnext
    as (s0' & Hensure' & _ & _ & _ & Hnav' & _).
  destruct (CrawlMore.ensure_browser_effects s1')
    as (s0'' & Hensure'' & _ & _ & _ & _ & _ & Hsame).
  rewrite Hensure'' in Hensure'. injection Hensure' as <-.
  rewrite (Hsame Hpage) in Hnav'.
  revert Hensure.
  unfold Crawl.ensure_browser, Crawl.start_browser, Crawl.warmup_session,
    Crawl.bind, Crawl.get, Crawl.ret, Crawl.modify. simpl.
  destruct (Crawl.warmup_enabled cfg); simpl; intros [= <-];
    simpl in *; done.
Qed.

(** X17. A run of visits on a started browser asks the browser for exactly
    the product URLs of the run, in order, whatever the pages show: neither
    a failed load nor the handling of a challenge navigates anywhere
    else. *)
Theorem scrape_all_loads_each_url_once {World ProductRecord : Type}
    (lower : string → string)
    (visits : list (string * Crawl.PageVisit ProductRecord))
    (s : Crawl.Session World) (rs : list (option ProductRecord))
    (s' : Crawl.Session World) :
  Crawl.page s = true →
  Crawl.scrape_all lower visits s = (rs, s') →
  Crawl.navigations s' = Crawl.navigations s ++ map fst visits ∧
  length rs = length visits.
Proof.
  intros Hpage Hrun. split.
  - by destruct (CrawlMore.scrape_all_navigations lower _ _ _ _ Hrun Hpage).
  - by destruct (CrawlMore.scrape_all_counters lower _ _ _ _ Hrun)
      as (_ & ? & _).
Qed.

Lemma scrape_all_loads_each_url_once_witness :
  Crawl.navigations
    (snd (Crawl.scrape_all Scenarios.ascii_lower
            [ ("https://www.walmart.ca/en/ip/gadget/1"%string,
               Scenarios.challenge_page);
              ("https://www.walmart.ca/en/ip/widget/2"%string,
               MoreScenarios.slow_page);
              ("https://www.walmart.ca/en/ip/widget/2"%string,
               MoreScenarios.cleared_page) ]
            (Crawl.set_page true MoreScenarios.guarded_session)))
    = Crawl.navigations (Crawl.set_page true MoreScenarios.guarded_session)
      ++ map fst
           [ ("https://www.walmart.ca/en/ip/gadget/1"%string,
              Scenarios.challenge_page);
             ("https://www.walmart.ca/en/ip/widget/2"%string,
              MoreScenarios.slow_page);
             ("https://www.walmart.ca/en/ip/widget/2"%string,
              MoreScenarios.cleared_page) ] ∧
  length [None; None; Some "Widget"%string] = 3%nat.
Proof.
  apply (scrape_all_loads_each_url_once Scenarios.ascii_lower
           [ ("https://www.walmart.ca/en/ip/gadget/1"%string,
              Scenarios.challenge_page);
             ("https://www.walmart.ca/en/ip/widget/2"%string,
              MoreScenarios.slow_page);
             ("https://www.walmart.ca/en/ip/widget/2"%string,
              MoreScenarios.cleared_page) ]
           (Crawl.set_page true MoreScenarios.guarded_session)
           [None; None; Some "Widget"%string]).
  - reflexivity.
  - vm_compute. reflexivity.
Defined.

(** X18. A visit whose page fails to load, or loads without a block
    indicator, never calls the solving services: the world of the solver
    and both solve counters are as before. *)
Theorem visit_without_block_leaves_solver_alone {World ProductRecord : Type}
    (lower : string → string) (product_url : string)
    (pv : Crawl.PageVisit ProductRecord) (s : Crawl.Session World) :
  Crawl.goto_result pv ≠ Crawl.Loaded ∨
    Crawl.has_indicator lower (Crawl.content pv) = false →
  let s' := snd (Crawl.scrape_product_page lower product_url pv s) in
  Crawl.solver_world s' = Crawl.solver_world s ∧
  Crawl.captcha_solve_attempts s' = Crawl.captcha_solve_attempts s ∧
  Crawl.captcha_solve_successes s' = Crawl.captcha_solve_successes s.
Proof.
  intros Hclean s'.
  destruct (Crawl.scrape_product_page lower product_url pv s)
    as [r s1] eqn:Hvisit.
  subst s'. simpl.
  apply CrawlMore.visit_effects in Hvisit
    as (s0 & _ & _ & _ & _ & _ & _ & _ & Huntouched).
  exact (Huntouched Hclean).
Qed.

Lemma visit_without_block_leaves_solver_alone_witness :
  let s' := snd (Crawl.scrape_product_page Scenarios.ascii_lower
                   "https://www.walmart.ca/en/ip/widget/2"
                   MoreScenarios.slow_page MoreScenarios.guarded_session) in
  Crawl.solver_world s' = Crawl.solver_world MoreScenarios.guarded_session ∧
  Crawl.captcha_solve_attempts s'
    = Crawl.captcha_solve_attempts MoreScenarios.guarded_session ∧
  Crawl.captcha_solve_successes s'
    = Crawl.captcha_solve_successes MoreScenarios.guarded_session.
Proof.
  apply (visit_without_block_leaves_solver_alone Scenarios.ascii_lower
           "https://www.walmart.ca/en/ip/widget/2" MoreScenarios.slow_page
           MoreScenarios.guarded_session).
  left. simpl. discriminate.
Defined.

(** X19. After any run of visits from a newly built scraper the counters
    are consistent: no more solves than attempts, at most one attempt and
    at most one error per visit, and the run of consecutive errors is never
    longer than the number of errors. *)
Theorem crawl_counters_are_consistent {World ProductRecord : Type}
    (lower : string → string) (cfg : Crawl.Config)
    (m : Captcha.CaptchaSolverManager World) (w : World)
    (visits : list (string * Crawl.PageVisit ProductRecord)) :
  let s' := snd (Crawl.scrape_all lower visits (Crawl.init cfg m w)) in
  0 ≤ Crawl.captcha_solve_successes s' ≤ Crawl.captcha_solve_attempts s' ∧
  Crawl.captcha_solve_attempts s' ≤ Z.of_nat (length visits) ∧
  0 ≤ Crawl.consecutive_errors s' ≤ Crawl.stats_errors s' ∧
  Crawl.stats_errors s' ≤ Z.of_nat (length visits) ∧
  Crawl.captcha_solver s' = m ∧ Crawl.config s' = cfg ∧
  Crawl.max_consecutive_errors s' = 5.
Proof.
  intros s'.
  destruct (Crawl.scrape_all lower visits (Crawl.init cfg m w))
    as [rs s1] eqn:Hrun.
  subst s'. simpl.
  apply CrawlMore.scrape_all_counters in Hrun
    as ((Hc & Hm & Hx) & _ & Hatt & Hsucc & Hdiff & Hstats & Hcons).
  simpl in *. split_and!; try done; lia.
Qed.

(** X20. A visit returns a record from a page that showed a block indicator
    only if a solver is available, the manager returned a successful
    solution with a solve time and a non-empty token, injecting it did not
    raise, and the reloaded page shows no indicator; the visit then counts
    one attempt and one success. *)
Theorem record_from_blocked_page_needs_solved_challenge
    {World ProductRecord : Type} (lower : string → string)
    (product_url : string) (pv : Crawl.PageVisit ProductRecord)
    (s : Crawl.Session World) (record : ProductRecord)
    (s' : Crawl.Session World) :
  Crawl.scrape_product_page lower product_url pv s = (Some record, s') →
  Crawl.has_indicator lower (Crawl.content pv) = true →
  Captcha.is_available (Crawl.captcha_solver s) = true ∧
  ∃ result log tok,
    Captcha.solve_perimeterx (Crawl.captcha_solver s) (Crawl.page_url pv)
      (Crawl.px_data pv) (Some (Crawl.user_agent (Crawl.config s)))
      (Crawl.solver_world s)
      = (result, Crawl.solver_world s', log) ∧
    Captcha.success result = true ∧
    is_Some (Captcha.solve_time result) ∧
    Captcha.token result = Some tok ∧ PyStr.truthy tok = true ∧
    Crawl.injection_raises pv = false ∧
    Crawl.has_indicator lower (Crawl.content_after_reload pv) = false ∧
    Crawl.captcha_solve_attempts s' = Crawl.captcha_solve_attempts s + 1 ∧
    Crawl.captcha_solve_successes s' = Crawl.captcha_solve_successes s + 1.
Proof. apply CrawlMore.blocked_visit_with_record. Qed.

Lemma record_from_blocked_page_needs_solved_challenge_witness :
  Captcha.is_available (Crawl.captcha_solver MoreScenarios.guarded_session)
    = true ∧
  ∃ result log tok,
    Captcha.solve_perimeterx
      (Crawl.captcha_solver MoreScenarios.guarded_session)
      (Crawl.page_url MoreScenarios.cleared_page)
      (Crawl.px_data MoreScenarios.cleared_page)
      (Some (Crawl.user_agent (Crawl.config MoreScenarios.guarded_session)))
      (Crawl.solver_world MoreScenarios.guarded_session)
      = (result,
         Crawl.solver_world
           (snd (Crawl.scrape_product_page Scenarios.ascii_lower
                   "https://www.walmart.ca/en/ip/widget/2"
                   MoreScenarios.cleared_page MoreScenarios.guarded_session)),
         log) ∧
    Captcha.success result = true ∧
    is_Some (Captcha.solve_time result) ∧
    Captcha.token result = Some tok ∧ PyStr.truthy tok = true ∧
    Crawl.injection_raises MoreScenarios.cleared_page = false ∧
    Crawl.has_indicator Scenarios.ascii_lower
      (Crawl.content_after_reload MoreScenarios.cleared_page) = false ∧
    Crawl.captcha_solve_attempts
      (snd (Crawl.scrape_product_page Scenarios.ascii_lower
              "https://www.walmart.ca/en/ip/widget/2"
              MoreScenarios.cleared_page MoreScenarios.guarded_session))
      = Crawl.captcha_solve_attempts MoreScenarios.guarded_session + 1 ∧
    Crawl.captcha_solve_successes
      (snd (Crawl.scrape_product_page Scenarios.ascii_lower
              "https://www.walmart.ca/en/ip/widget/2"
              MoreScenarios.cleared_page MoreScenarios.guarded_session))
      = Crawl.captcha_solve_successes MoreScenarios.guarded_session + 1.
Proof.
  apply (record_from_blocked_page_needs_solved_challenge
           Scenarios.ascii_lower "https://www.walmart.ca/en/ip/widget/2"
           MoreScenarios.cleared_page MoreScenarios.guarded_session
           "Widget"%string).
  - vm_compute. reflexivity.
  - vm_compute. reflexivity.
Defined.

(** ** The sitemap crawl *)

Module CrawlDriverFacts.
Import PyStr Crawl CrawlDriver.

Section WithCollaborators.
Context {World ProductRecord : Type}.
Variable lower : string → string.
Variable page_of : nat → PageVisit ProductRecord.
Variable save_record : nat → ProductRecord → bool.
Implicit Types p : Progress World.

Lemma enough_false m count :
  0 < m → enough (Some m) count = false → count < m.
Proof.
  unfold enough. intros Hpos.
  destruct (Z.eqb_spec m 0); [lia|]. simpl.
  destruct (Z.leb_spec m count); [done|lia].
Qed.

(** The count moves with the visits and stays under the limit. *)
Lemma scrape_entries_count max_products entries p :
  let p' := scrape_entries lower page_of save_record max_products entries p in
  scraped_count p ≤ scraped_count p' ∧
  scraped_count p' - scraped_count p
    ≤ Z.of_nat (visits p') - Z.of_nat (visits p) ∧
  (visits p ≤ visits p' ≤ visits p + length entries)%nat ∧
  (∀ m, max_products = Some m → 0 < m →
        scraped_count p ≤ m → scraped_count p' ≤ m).
Proof.
  revert p. induction entries as [|entry rest IH]; intros p; simpl.
  { split_and!; by try lia. }
  destruct (enough max_products (scraped_count p)) eqn:Henough.
  { split_and!; by try lia. }
  destruct (Sitemap.filter_walmart_product_urls (Sitemap.loc entry)); simpl.
  2:{ destruct (IH p) as (? & ? & ? & ?). split_and!; try done; lia. }
  destruct (scrape_product_page lower (Sitemap.loc entry) (page_of (visits p))
              (session p)) as [product s1].
  match goal with
  | |- context [scrape_entries _ _ _ _ rest ?p1] =>
      destruct (IH p1) as (Hle & Hdiff & Hvisits & Hmax); simpl in *
  end.
  assert (scraped_count p ≤
          match product with
          | Some record =>
              if save_record (visits p) record then scraped_count p + 1
              else scraped_count p
          | None => scraped_count p
          end ≤ scraped_count p + 1) as Hstep.
  { destruct product as [record|]; [destruct (save_record _ _)|]; lia. }
  split_and!; try lia.
  intros m -> Hpos Hunder. apply (Hmax m eq_refl Hpos).
  apply enough_false in Henough; [lia|done].
Qed.

(** The page loads of the loop, on a started browser. *)
Lemma scrape_entries_loads max_products entries p :
  page (session p) = true →
  let p' := scrape_entries lower page_of save_record max_products entries p in
  page (session p') = true ∧
  ∃ urls,
    navigations (session p') = navigations (session p) ++ urls ∧
    visits p' = (visits p + length urls)%nat ∧
    urls `prefix_of`
      List.filter Sitemap.filter_walmart_product_urls
        (map Sitemap.loc entries) ∧
    ((∀ count, enough max_products count = false) →
     urls = List.filter Sitemap.filter_walmart_product_urls
              (map Sitemap.loc entries)).
Proof.
  revert p. induction entries as [|entry rest IH]; intros p Hpage; simpl.
  { split; [done|]. exists []. rewrite (right_id_L [] app).
    split; [done|]. split; [simpl; lia|]. done. }
  destruct (enough max_products (scraped_count p)) eqn:Henough.
  { split; [done|]. exists []. rewrite (right_id_L [] app).
    split; [done|]. split; [simpl; lia|]. split; [apply prefix_nil|].
    intros Hnever. by rewrite Hnever in Henough. }
  destruct (Sitemap.filter_walmart_product_urls (Sitemap.loc entry)); simpl.
  2:{ by apply IH. }
  destruct (scrape_product_page lower (Sitemap.loc entry) (page_of (visits p))
              (session p)) as [product s1] eqn:Hvisit.
  apply CrawlMore.visit_effects in Hvisit
    as (s0 & Hensure & _ & Hpage1 & _ & Hnav & _).
  destruct (CrawlMore.ensure_browser_effects (session p))
    as (s0' & Hensure' & _ & _ & _ & _ & _ & Hsame).
  rewrite Hensure' in Hensure. injection Hensure as <-.
  rewrite (Hsame Hpage) in Hnav.
  match goal with
  | |- context [scrape_entries _ _ _ _ rest ?p1] =>
      destruct (IH p1 Hpage1) as (Hpage' & urls & Hnav' & Hvisits & Hpre & Hall);
      simpl in *
  end.
  split; [done|]. exists (Sitemap.loc entry :: urls).
  split_and!.
  - rewrite Hnav', Hnav. by rewrite <- (assoc_L app).
  - simpl. lia.
  - by apply prefix_cons.
  - intros Hnever. by rewrite <- (Hall Hnever).
Qed.

(** Starting the browser and warming up leaves the page set. *)
Lemma started_page (s : Session World) :
  page (snd (warmup_session (snd (start_browser s)))) = true.
Proof.
  destruct (CrawlMore.warmup_session_effects (snd (start_browser s)))
    as (s1 & Hwarmup & _ & _ & Hpage & _).
  rewrite Hwarmup. simpl. by rewrite Hpage.
Qed.

End WithCollaborators.

End CrawlDriverFacts.

(** X21. With a positive [max_products], [scrape_from_sitemap] never counts
    more than [max_products] saved records; the count is never negative and
    never above the number of product pages visited. *)
Theorem scrape_from_sitemap_respects_max_products
    {World ProductRecord : Type} (lower : string → string)
    (page_of : nat → Crawl.PageVisit ProductRecord)
    (save_record : nat → ProductRecord → bool)
    (fuel : nat) (web : Sitemap.Web) (configured sitemap_url : option string)
    (m : Z) (s : Crawl.Session World) (p : CrawlDriver.Progress World) :
  0 < m →
  CrawlDriver.scrape_from_sitemap lower page_of save_record fuel web
    configured sitemap_url (Some m) s = Some p →
  0 ≤ CrawlDriver.scraped_count p ≤ m ∧
  CrawlDriver.scraped_count p ≤ Z.of_nat (CrawlDriver.visits p).
Proof.
  intros Hpos. unfold CrawlDriver.scrape_from_sitemap.
  destruct (match sitemap_url with
            | Some url => if PyStr.truthy url then Some url else configured
            | None => configured
            end) as [url|]; [|intros [= <-]; simpl; lia].
  destruct (negb (PyStr.truthy url)); [intros [= <-]; simpl; lia|].
  destruct (Sitemap.get_product_urls fuel web url (Some m) None)
    as [product_entries|]; [|done].
  intros [= <-].
  match goal with
  | |- context [CrawlDriver.scrape_entries _ _ _ ?mp ?es ?p0] =>
      destruct (CrawlDriverFacts.scrape_entries_count lower page_of
                  save_record mp es p0) as (Hle & Hdiff & Hvisits & Hmax);
      specialize (Hmax m eq_refl Hpos)
  end.
  simpl in *. lia.
Qed.

Lemma scrape_from_sitemap_respects_max_products_witness :
  let p := CrawlDriver.scrape_entries Scenarios.ascii_lower
             MoreScenarios.store_pages MoreScenarios.always_saved (Some 1)
             [ Scenarios.entry "https://www.walmart.ca/en/ip/widget/1" None ]
             {| CrawlDriver.scraped_count := 0; CrawlDriver.visits := 0;
                CrawlDriver.session :=
                  snd (Crawl.warmup_session
                         (snd (Crawl.start_browser Scenarios.fresh_session)));
                CrawlDriver.checkpoints := [] |} in
  0 ≤ CrawlDriver.scraped_count p ≤ 1 ∧
  CrawlDriver.scraped_count p ≤ Z.of_nat (CrawlDriver.visits p).
Proof.
  apply (scrape_from_sitemap_respects_max_products Scenarios.ascii_lower
           MoreScenarios.store_pages MoreScenarios.always_saved 10
           MoreScenarios.store_web None
           (Some "https://www.walmart.ca/sitemap-products.xml"%string) 1
           Scenarios.fresh_session).
  - lia.
  - vm_compute. reflexivity.
Defined.

(** X22. When a sitemap URL is given, the product pages [scrape_from_sitemap]
    loads after the warm-up are, in order, the first locations of
    [get_product_urls] that pass [filter_walmart_product_urls], one load per
    visit; without a limit ([max_products] absent or zero) they are all of
    them. *)
Theorem scrape_from_sitemap_visits_filtered_products
    {World ProductRecord : Type} (lower : string → string)
    (page_of : nat → Crawl.PageVisit ProductRecord)
    (save_record : nat → ProductRecord → bool)
    (fuel : nat) (web : Sitemap.Web) (configured : option string)
    (url : string) (max_products : option Z)
    (s : Crawl.Session World) (p : CrawlDriver.Progress World) :
  PyStr.truthy url = true →
  CrawlDriver.scrape_from_sitemap lower page_of save_record fuel web
    configured (Some url) max_products s = Some p →
  ∃ product_entries urls,
    Sitemap.get_product_urls fuel web url max_products None
      = Some product_entries ∧
    Crawl.navigations (CrawlDriver.session p)
      = Crawl.navigations
          (snd (Crawl.warmup_session (snd (Crawl.start_browser s))))
        ++ urls ∧
    length urls = CrawlDriver.visits p ∧
    urls `prefix_of`
      List.filter Sitemap.filter_walmart_product_urls
        (map Sitemap.loc product_entries) ∧
    (max_products = None ∨ max_products = Some 0 →
     urls = List.filter Sitemap.filter_walmart_product_urls
              (map Sitemap.loc product_entries)).
Proof.
  intros Htruthy. unfold CrawlDriver.scrape_from_sitemap.
  rewrite Htruthy. simpl. rewrite Htruthy. simpl.
  destruct (Sitemap.get_product_urls fuel web url max_products None)
    as [product_entries|]; [|intros [=]].
  intros [= <-]. exists product_entries.
  match goal with
  | |- context [CrawlDriver.scrape_entries _ _ _ ?mp ?es ?p0] =>
      destruct (CrawlDriverFacts.scrape_entries_loads lower page_of
                  save_record mp es p0 (CrawlDriverFacts.started_page s))
        as (_ & urls & Hnav & Hvisits & Hprefix & Hall)
  end.
  simpl in *. exists urls. split_and!; try done.
  intros [-> | ->]; apply Hall; done.
Qed.

Lemma scrape_from_sitemap_visits_filtered_products_witness :
  let p := CrawlDriver.scrape_entries Scenarios.ascii_lower
             MoreScenarios.store_pages MoreScenarios.always_saved None
             [ Scenarios.entry "https://www.walmart.ca/en/ip/widget/1" None;
               Scenarios.entry "https://www.walmart.ca/en/ip/gadget/2?f=new"
                 None;
               Scenarios.entry "https://www.walmart.ca/en/ip/gizmo/3" None ]
             {| CrawlDriver.scraped_count := 0; CrawlDriver.visits := 0;
                CrawlDriver.session :=
                  snd (Crawl.warmup_session
                         (snd (Crawl.start_browser Scenarios.fresh_session)));
                CrawlDriver.checkpoints := [] |} in
  ∃ product_entries urls,
    Sitemap.get_product_urls 10 MoreScenarios.store_web
      "https://www.walmart.ca/sitemap-products.xml" None None
      = Some product_entries ∧
    Crawl.navigations (CrawlDriver.session p)
      = Crawl.navigations
          (snd (Crawl.warmup_session
                  (snd (Crawl.start_browser Scenarios.fresh_session))))
        ++ urls ∧
    length urls = CrawlDriver.visits p ∧
    urls `prefix_of`
      List.filter Sitemap.filter_walmart_product_urls
        (map Sitemap.loc product_entries) ∧
    (@None Z = None ∨ @None Z = Some 0 →
     urls = List.filter Sitemap.filter_walmart_product_urls
              (map Sitemap.loc product_entries)).
Proof.
  apply (scrape_from_sitemap_visits_filtered_products Scenarios.ascii_lower
           MoreScenarios.store_pages MoreScenarios.always_saved 10
           MoreScenarios.store_web None
           "https://www.walmart.ca/sitemap-products.xml" None
           Scenarios.fresh_session).
  - reflexivity.
  - vm_compute. reflexivity.
Defined.
